(** * Pipeline event stream processor of the Omni-Core dashboard

    A shallow embedding of the page component [Home] (state, stage plan,
    event handlers, stream read loop, stop and reset) and of the hook
    [useMultiStepProgress], followed by the properties of the pipeline
    specification checked against them.

    Conventions.
    - A piece of React state is a field of [State]; a setter call
      [setX(prev => f prev)] is the state transformer that applies [f]
      to that field.  Setter calls queue in program order, so a handler
      is the composition of its setter calls.
    - JavaScript numbers carried by the model (percentages) are finite,
      and are represented by rationals; [Math.max] and [Math.round] are
      exact on them.
    - Events are the records of the wire protocol, already typed: a
      [progress] event carries a string [step] and a number [percent]. *)

From Stdlib Require Import Ascii QArith Qround Qminmax Lqa.
From stdpp Require Import gmap strings list fin_maps pretty.

Set Warnings "-register-all,-clear-no-such-hyp".

Open Scope Z_scope.

(** ** Data model (PipelineTracker.tsx) *)

Inductive StepStatus := pending | active | completed | error | skipped.

#[global] Instance StepStatus_eq_dec : EqDecision StepStatus.
Proof. solve_decision. Defined.

(** [PipelineStep]; the [icon] component is display-only and left out. *)
Record PipelineStep := mkStep {
  id : string;
  label : string;
  description : string;
  status : StepStatus;
  progress : option Z
}.

(** [{ ...step, status: st }] *)
Definition with_status (st : StepStatus) (step : PipelineStep) : PipelineStep :=
  mkStep (id step) (label step) (description step) st (progress step).

(** [{ ...step, progress: p }] *)
Definition with_progress (p : option Z) (step : PipelineStep) : PipelineStep :=
  mkStep (id step) (label step) (description step) (status step) p.

Definition INITIAL_STEPS : list PipelineStep :=
  [ mkStep "transcription" "Transcription" "Local Whisper" pending None;
    mkStep "analysis" "Intelligence" "Brain + Research" pending None;
    mkStep "generation" "Content Hub" "Social Assets" pending None;
    mkStep "visuals" "Visual Studio" "Carousel + Thumbnails" pending None;
    mkStep "audio" "Audio Hub" "Neural Dubbing" pending None;
    mkStep "storage" "Airtable" "Production Board" pending None ].

(** Payloads of content events and values of the results aggregate. *)
Inductive JSON :=
  | JUndefined
  | JNull
  | JBool (b : bool)
  | JNum (q : Q)
  | JStr (s : string)
  | JArr (l : list JSON)
  | JObj (l : list (string * JSON)).

(** ** JavaScript primitives *)

(** [Math.max(a, b)] *)
Definition Math_max (a b : Q) : Q := Qmax a b.

(** [Math.min(a, b)] *)
Definition Math_min (a b : Q) : Q := Qmin a b.

(** [Math.round(x)]: the nearest integer, ties towards +infinity. *)
Definition Math_round (x : Q) : Z := Qfloor (x + (1 # 2)).

(** [m[k] || d] on a record of numbers: [d] when the key is absent or
    the value is falsy (zero). *)
Definition get_or (d : Q) (m : gmap string Q) (k : string) : Q :=
  match m !! k with
  | Some v => if Qeq_bool v 0 then d else v
  | None => d
  end.

(** [arr.includes(x)] on an array of strings *)
Definition includes (arr : list string) (x : string) : bool :=
  bool_decide (x ∈ arr).

(** ** Page state ([useState] cells of [Home]) *)

Record State := mkState {
  steps : list PipelineStep;
  isLoading : bool;
  error_msg : option string;
  result : option (gmap string JSON);
  activeSection : string;
  realProgress : gmap string Q;
  selectedPlatforms : list string;
  isThinking : bool;
  thinkingStep : string;
  thinkingLabel : string;
  thinkingText : string
}.

Definition setSteps (f : list PipelineStep → list PipelineStep) (s : State) : State :=
  mkState (f (steps s)) (isLoading s) (error_msg s) (result s) (activeSection s)
    (realProgress s) (selectedPlatforms s) (isThinking s) (thinkingStep s)
    (thinkingLabel s) (thinkingText s).

Definition setIsLoading (b : bool) (s : State) : State :=
  mkState (steps s) b (error_msg s) (result s) (activeSection s)
    (realProgress s) (selectedPlatforms s) (isThinking s) (thinkingStep s)
    (thinkingLabel s) (thinkingText s).

Definition setError (e : option string) (s : State) : State :=
  mkState (steps s) (isLoading s) e (result s) (activeSection s)
    (realProgress s) (selectedPlatforms s) (isThinking s) (thinkingStep s)
    (thinkingLabel s) (thinkingText s).

Definition setResult (f : option (gmap string JSON) → option (gmap string JSON))
    (s : State) : State :=
  mkState (steps s) (isLoading s) (error_msg s) (f (result s)) (activeSection s)
    (realProgress s) (selectedPlatforms s) (isThinking s) (thinkingStep s)
    (thinkingLabel s) (thinkingText s).

Definition setActiveSection (a : string) (s : State) : State :=
  mkState (steps s) (isLoading s) (error_msg s) (result s) a
    (realProgress s) (selectedPlatforms s) (isThinking s) (thinkingStep s)
    (thinkingLabel s) (thinkingText s).

Definition setRealProgress (f : gmap string Q → gmap string Q) (s : State) : State :=
  mkState (steps s) (isLoading s) (error_msg s) (result s) (activeSection s)
    (f (realProgress s)) (selectedPlatforms s) (isThinking s) (thinkingStep s)
    (thinkingLabel s) (thinkingText s).

Definition setSelectedPlatforms (p : list string) (s : State) : State :=
  mkState (steps s) (isLoading s) (error_msg s) (result s) (activeSection s)
    (realProgress s) p (isThinking s) (thinkingStep s)
    (thinkingLabel s) (thinkingText s).

Definition setIsThinking (b : bool) (s : State) : State :=
  mkState (steps s) (isLoading s) (error_msg s) (result s) (activeSection s)
    (realProgress s) (selectedPlatforms s) b (thinkingStep s)
    (thinkingLabel s) (thinkingText s).

Definition setThinkingStep (x : string) (s : State) : State :=
  mkState (steps s) (isLoading s) (error_msg s) (result s) (activeSection s)
    (realProgress s) (selectedPlatforms s) (isThinking s) x
    (thinkingLabel s) (thinkingText s).

Definition setThinkingLabel (x : string) (s : State) : State :=
  mkState (steps s) (isLoading s) (error_msg s) (result s) (activeSection s)
    (realProgress s) (selectedPlatforms s) (isThinking s) (thinkingStep s)
    x (thinkingText s).

Definition setThinkingText (f : string → string) (s : State) : State :=
  mkState (steps s) (isLoading s) (error_msg s) (result s) (activeSection s)
    (realProgress s) (selectedPlatforms s) (isThinking s) (thinkingStep s)
    (thinkingLabel s) (f (thinkingText s)).

(** The state of a freshly mounted page with nothing to restore. *)
Definition initialState : State :=
  mkState INITIAL_STEPS false None None "analysis" ∅ [] false "" "" "".

(** ** Displayed progress ([stepsWithProgress]) *)

Definition withDisplay (real simulated : gmap string Q) (step : PipelineStep)
    : PipelineStep :=
  let r := get_or 0 real (id step) in
  let sim := get_or 0 simulated (id step) in
  let p :=
    match status step with
    | completed => 100%Q
    | active => Math_max r sim
    | _ => 0%Q
    end in
  with_progress (Some (Math_round p)) step.

Definition stepsWithProgress (sts : list PipelineStep)
    (real simulated : gmap string Q) : list PipelineStep :=
  map (withDisplay real simulated) sts.

(** The value shown for the stage at position [i] of the stage list. *)
Definition displayProgress (s : State) (simulated : gmap string Q) (i : nat)
    : option Z :=
  step ← stepsWithProgress (steps s) (realProgress s) simulated !! i;
  progress step.

(** ** Stage status updates *)

Definition updateStep (i : string) (st : StepStatus) (step : PipelineStep)
    : PipelineStep :=
  if bool_decide (id step = i)
  then mkStep (id step) (label step) (description step) st
         (if bool_decide (st = completed) then Some 100 else progress step)
  else step.

Definition updateStepStatus (i : string) (st : StepStatus) : State → State :=
  setSteps (map (updateStep i st)).

(** ** Stage plan ([smartSteps] in [handleProcessVideo]) *)

Definition smartStep (platforms : list string) (step : PipelineStep) : PipelineStep :=
  if bool_decide (id step = "transcription") || bool_decide (id step = "analysis")
     || bool_decide (id step = "storage") then step
  else if bool_decide (id step = "generation") then
    if existsb (includes platforms) ["twitter"; "blog"; "linkedin"; "newsletter"]
    then step else with_status skipped step
  else if bool_decide (id step = "visuals") then
    if includes platforms "visuals" then step else with_status skipped step
  else if bool_decide (id step = "audio") then
    if includes platforms "audio" then step else with_status skipped step
  else step.

Definition smartSteps (platforms : list string) : list PipelineStep :=
  map (smartStep platforms) INITIAL_STEPS.

(** The status of the first stage of [sts] whose id is [i]. *)
Definition statusOf (sts : list PipelineStep) (i : string) : option StepStatus :=
  status <$> find (λ step, bool_decide (id step = i)) sts.


(** ** Events of the wire protocol *)

Inductive Event :=
  | EvStatus (message : string)
  | EvProgress (step : string) (percent : Q)
  | EvThinkingStart (step : string) (lbl : string)
  | EvThinking (token : string)
  | EvThinkingDone
  | EvTranscript
  | EvAnalysis (data : JSON)
  | EvResearch (data : JSON)
  | EvLinkedin (data : JSON)
  | EvTwitter (data : JSON)
  | EvBlog (data : JSON)
  | EvHooks (data : JSON)
  | EvBroll (data : JSON)
  | EvSeo (data : JSON)
  | EvNewsletter (data : JSON)
  | EvCarousel (data : JSON)
  | EvThumbnails (data : JSON)
  | EvAudio (data : JSON)
  | EvAirtable
  | EvError (err : string)
  | EvOther.

(** [setResult(prev => ({ ...prev, [k]: v }))]; spreading [null] gives
    the empty object. *)
Definition putResult (k : string) (v : JSON) : State → State :=
  setResult (λ prev, Some (<[k := v]> (default ∅ prev))).

(** What the body of the [switch] does with the rest of the function:
    [break] goes on with the next line, [return] leaves
    [handleProcessVideo]. *)
Inductive Outcome :=
  | Continue (s : State)
  | Return (s : State).

Definition stateOf (o : Outcome) : State :=
  match o with Continue s | Return s => s end.

(** The [switch (event.type)] of [handleProcessVideo]. *)
Definition handleEvent (ev : Event) (s : State) : Outcome :=
  match ev with
  | EvStatus _ => Continue s
  | EvProgress step percent =>
      Continue (setRealProgress (λ prev, <[step := percent]> prev) s)
  | EvThinkingStart step lbl =>
      Continue (setThinkingText (λ _, "")
        (setThinkingLabel lbl (setThinkingStep step (setIsThinking true s))))
  | EvThinking token =>
      Continue (setThinkingText (λ prev, prev +:+ token) s)
  | EvThinkingDone => Continue (setIsThinking false s)
  | EvTranscript =>
      Continue (updateStepStatus "analysis" active
        (updateStepStatus "transcription" completed s))
  | EvAnalysis data =>
      Continue (setActiveSection "analysis"
        (updateStepStatus "analysis" active (putResult "analysis" data s)))
  | EvResearch data =>
      Continue (setActiveSection "research"
        (updateStepStatus "generation" active
          (updateStepStatus "analysis" completed (putResult "research" data s))))
  | EvLinkedin data =>
      Continue (setActiveSection "linkedin" (putResult "linkedin_post" data s))
  | EvTwitter data =>
      Continue (setActiveSection "twitter" (putResult "twitter_thread" data s))
  | EvBlog data =>
      Continue (setActiveSection "blog" (putResult "blog_post" data s))
  | EvHooks data =>
      Continue (setActiveSection "hooks" (putResult "linkedin_hooks" data s))
  | EvBroll data =>
      Continue (updateStepStatus "features" active (putResult "broll_images" data s))
  | EvSeo data => Continue (putResult "seo_score" data s)
  | EvNewsletter data =>
      Continue (setActiveSection "newsletter" (putResult "newsletter_html" data s))
  | EvCarousel data =>
      Continue (setActiveSection "carousel"
        (updateStepStatus "visuals" active
          (updateStepStatus "generation" completed (putResult "carousel" data s))))
  | EvThumbnails data =>
      Continue (setActiveSection "thumbnails" (putResult "thumbnails" data s))
  | EvAudio data =>
      Continue (setActiveSection "audio"
        (updateStepStatus "audio" active
          (updateStepStatus "visuals" completed (putResult "audio" data s))))
  | EvAirtable =>
      Continue (updateStepStatus "storage" completed
        (updateStepStatus "features" completed
          (updateStepStatus "generation" completed s)))
  | EvError err => Return (setIsLoading false (setError (Some err) s))
  | EvOther => Continue s
  end.

(** Events applied in order until one returns. *)
Fixpoint applyEvents (evs : list Event) (s : State) : Outcome :=
  match evs with
  | [] => Continue s
  | ev :: evs' =>
      match handleEvent ev s with
      | Continue s' => applyEvents evs' s'
      | Return s' => Return s'
      end
  end.

(** ** Text of the stream

    A JavaScript string is a sequence of UTF-16 code units. *)
Abbreviation jsstring := (list Z).

Definition LF : Z := 10.

(** [str.split("\n")]: the segments between line feeds; never empty. *)
Fixpoint split_lf (t : jsstring) : list jsstring :=
  match t with
  | [] => [[]]
  | c :: t' =>
      if c =? LF then [] :: split_lf t'
      else match split_lf t' with
           | seg :: segs => (c :: seg) :: segs
           | [] => [[c]]
           end
  end.

(** [lines.pop() || ""]: the array without its last element, and that
    element (the empty string when there is none). *)
Definition pop (segs : list jsstring) : list jsstring * jsstring :=
  (removelast segs, default [] (last segs)).

(** WhiteSpace and LineTerminator code units, the ones [trim] strips. *)
Definition isWhiteSpace (c : Z) : bool :=
  bool_decide (c ∈ [9; 10; 11; 12; 13; 32; 160; 5760; 8232; 8233; 8239; 8287;
                    12288; 65279])
  || ((8192 <=? c) && (c <=? 8202)).

(** [!line.trim()] *)
Definition isBlank (line : jsstring) : bool := forallb isWhiteSpace line.

(** ** [TextDecoder] in streaming mode

    The UTF-8 decoder of the platform, one byte at a time; its state
    lives across [decode(value, { stream: true })] calls. *)
Record Decoder := mkDecoder {
  code_point : Z;
  bytes_seen : Z;
  bytes_needed : Z;
  lower_boundary : Z;
  upper_boundary : Z;
  bom_seen : bool
}.

Definition newDecoder : Decoder := mkDecoder 0 0 0 128 191 false.

Definition resetDecoder (d : Decoder) : Decoder :=
  mkDecoder 0 0 0 128 191 (bom_seen d).

(** A byte read when no sequence is open. *)
Definition leadByte (d : Decoder) (b : Z) : Decoder * list Z :=
  if b <=? 127 then (d, [b])
  else if (194 <=? b) && (b <=? 223) then
    (mkDecoder (Z.land b 31) 0 1 128 191 (bom_seen d), [])
  else if (224 <=? b) && (b <=? 239) then
    (mkDecoder (Z.land b 15) 0 2
       (if b =? 224 then 160 else 128) (if b =? 237 then 159 else 191)
       (bom_seen d), [])
  else if (240 <=? b) && (b <=? 244) then
    (mkDecoder (Z.land b 7) 0 3
       (if b =? 240 then 144 else 128) (if b =? 244 then 143 else 191)
       (bom_seen d), [])
  else (d, [65533]).

(** The code points that one byte makes the decoder emit. *)
Definition decodeByte (d : Decoder) (b : Z) : Decoder * list Z :=
  if bytes_needed d =? 0 then leadByte d b
  else if negb ((lower_boundary d <=? b) && (b <=? upper_boundary d)) then
    let '(d', out) := leadByte (resetDecoder d) b in (d', 65533 :: out)
  else
    let cp := Z.lor (Z.shiftl (code_point d) 6) (Z.land b 63) in
    let seen := bytes_seen d + 1 in
    if seen =? bytes_needed d then (resetDecoder d, [cp])
    else (mkDecoder cp seen (bytes_needed d) 128 191 (bom_seen d), []).

(** The first code point of the stream is dropped when it is a byte
    order mark. *)
Definition skipBOM (d : Decoder) (cp : Z) : Decoder * list Z :=
  if bom_seen d then (d, [cp])
  else
    (mkDecoder (code_point d) (bytes_seen d) (bytes_needed d) (lower_boundary d)
       (upper_boundary d) true,
     if cp =? 65279 then [] else [cp]).

Fixpoint skipBOMs (d : Decoder) (cps : list Z) : Decoder * list Z :=
  match cps with
  | [] => (d, [])
  | cp :: cps' =>
      let '(d1, o1) := skipBOM d cp in
      let '(d2, o2) := skipBOMs d1 cps' in
      (d2, o1 ++ o2)
  end.

(** A code point as UTF-16 code units. *)
Definition utf16 (cp : Z) : jsstring :=
  if cp <? 65536 then [cp]
  else [55296 + Z.shiftr (cp - 65536) 10; 56320 + Z.land (cp - 65536) 1023].

(** [decoder.decode(value, { stream: true })] on the bytes of [value]. *)
Fixpoint decode (d : Decoder) (value : list Byte.byte) : Decoder * jsstring :=
  match value with
  | [] => (d, [])
  | b :: value' =>
      let '(d1, cps) := decodeByte d (Z.of_N (Byte.to_N b)) in
      let '(d2, out) := skipBOMs d1 cps in
      let '(d3, rest) := decode d2 value' in
      (d3, flat_map utf16 out ++ rest)
  end.

(** ** The read loop of [handleProcessVideo] *)

(** What the awaited calls of a run deliver: the request fails, the
    response has no body, or the body yields chunks and then ends or
    fails.  A failure carries the text [err.toString()] gives. *)
Inductive StreamEnd :=
  | Done
  | ReadThrows (msg : string).

Inductive Response :=
  | FetchThrows (msg : string)
  | NoBody
  | Body (chunks : list (list Byte.byte)) (e : StreamEnd).

Record FormData := mkData {
  videoUrl : string;
  clientId : string;
  toneProfile : string;
  platforms : list string
}.

(** The [catch] block. *)
Definition catchBlock (msg : string) (s : State) : State :=
  setSteps (map (λ step,
      if bool_decide (status step = active) then with_status error step else step))
    (setError (Some msg) s).

(** The [finally] block. *)
Definition finallyBlock : State → State := setIsLoading false.

(** [setSteps(prev => prev.map(step => ({ ...step, status: "completed" })))] *)
Definition markAllCompleted : State → State :=
  setSteps (map (with_status completed)).

(** The empty result structure set when a run starts. *)
Definition emptyResult : gmap string JSON :=
  list_to_map
    [ ("analysis", JUndefined); ("linkedin_post", JUndefined);
      ("twitter_thread", JUndefined); ("blog_post", JUndefined);
      ("linkedin_hooks", JArr []); ("broll_images", JArr []);
      ("seo_score", JUndefined); ("newsletter_html", JUndefined) ].

(** The synchronous start of a run, up to the request. *)
Definition startRun (data : FormData) (s : State) : State :=
  updateStepStatus "transcription" active
    (setResult (λ _, Some emptyResult)
      (setActiveSection "analysis"
        (setSelectedPlatforms (platforms data)
          (setSteps (λ _, smartSteps (platforms data))
            (setError None (setIsLoading true s)))))).

Section ReadLoop.

(** [JSON.parse] followed by the reading of the event's fields;
    [None] when the line does not parse or its fields cannot be read,
    which the [try] around the [switch] catches. *)
Variable JSON_parse : jsstring → option Event.

(** [for (const line of lines) { ... }] *)
Fixpoint processLines (lines : list jsstring) (s : State) : Outcome :=
  match lines with
  | [] => Continue s
  | line :: lines' =>
      if isBlank line then processLines lines' s
      else match JSON_parse line with
           | None => processLines lines' s
           | Some ev =>
               match handleEvent ev s with
               | Continue s' => processLines lines' s'
               | Return s' => Return s'
               end
           end
  end.

(** [while (true) { ... }]: one iteration for each chunk read; the
    loop is left when the reader reports the end. *)
Fixpoint readLoop (d : Decoder) (buffer : jsstring)
    (chunks : list (list Byte.byte)) (s : State) : Outcome :=
  match chunks with
  | [] => Continue s
  | value :: chunks' =>
      let '(d', text) := decode d value in
      let '(lines, buffer') := pop (split_lf (buffer ++ text)) in
      match processLines lines s with
      | Continue s' => readLoop d' buffer' chunks' s'
      | Return s' => Return s'
      end
  end.

Definition handleProcessVideo (data : FormData) (resp : Response) (s : State)
    : State :=
  let s1 := startRun data s in
  match resp with
  | FetchThrows msg => finallyBlock (catchBlock msg s1)
  | NoBody => finallyBlock (catchBlock "Error: No response body" s1)
  | Body chunks e =>
      match readLoop newDecoder [] chunks s1 with
      | Return s' => finallyBlock s'
      | Continue s' =>
          match e with
          | Done => finallyBlock (markAllCompleted s')
          | ReadThrows msg => finallyBlock (catchBlock msg s')
          end
      end
  end.

(** The lines the frame decoder hands to the line loop, chunk after
    chunk, and the buffer left when the chunks run out. *)
Fixpoint frames (d : Decoder) (buffer : jsstring) (chunks : list (list Byte.byte))
    : list jsstring * jsstring :=
  match chunks with
  | [] => ([], buffer)
  | value :: chunks' =>
      let '(d', text) := decode d value in
      let '(lines, buffer') := pop (split_lf (buffer ++ text)) in
      let '(more, rest) := frames d' buffer' chunks' in
      (lines ++ more, rest)
  end.

End ReadLoop.

(** The events a list of lines stands for: blank lines and lines that
    do not parse stand for none. *)
Definition eventsOf (JSON_parse : jsstring → option Event) (lines : list jsstring)
    : list Event :=
  omap (λ line, if isBlank line then None else JSON_parse line) lines.

(** ** Stop and reset *)

Definition handleStopPipeline (s : State) : State :=
  setSteps (map (λ step,
      if bool_decide (status step = active) then with_status pending step else step))
    (setError (Some "Pipeline stopped by user")
      (setThinkingLabel ""
        (setThinkingStep ""
          (setThinkingText (λ _, "")
            (setIsThinking false (setIsLoading false s)))))).

(** [resetSteps]; [backendFails] tells whether the request that asks
    the backend to clear its data throws, which is logged only. *)
Definition resetSteps (backendFails : bool) (s : State) : State :=
  setIsThinking false
    (setThinkingText (λ _, "")
      (setThinkingLabel ""
        (setThinkingStep ""
          (setSelectedPlatforms []
            (setActiveSection "analysis"
              (setIsLoading false
                (setResult (λ _, None)
                  (setError None
                    (setSteps (λ _, INITIAL_STEPS) s))))))))).

(** ** The simulated ramp ([useMultiStepProgress]) *)

Record Options := mkOptions {
  incrementPerMs : Q;
  maxProgress : Q;
  intervalMs : Q
}.

(** The options [Home] passes to the hook. *)
Definition homeOptions : Options := mkOptions 0.05 90 100.

(** [progressMap] is the state cell, [intervalsRef] the ids that have
    a timer handle stored, [ticking] the ids whose timer has not been
    cleared. *)
Record Ramp := mkRamp {
  progressMap : gmap string Q;
  intervalsRef : gset string;
  ticking : gset string
}.

Definition newRamp : Ramp := mkRamp ∅ ∅ ∅.

(** [clearInterval(intervalsRef.current[i]); delete intervalsRef.current[i]]
    when a handle is stored for [i]. *)
Definition clearTimer (i : string) (r : Ramp) : Ramp :=
  if bool_decide (i ∈ intervalsRef r)
  then mkRamp (progressMap r) (intervalsRef r ∖ {[i]}) (ticking r ∖ {[i]})
  else r.

Definition setProgress (i : string) (v : Q) (r : Ramp) : Ramp :=
  mkRamp (<[i := v]> (progressMap r)) (intervalsRef r) (ticking r).

(** The body of [steps.forEach] in the effect; [shown] is the
    [progressMap] of the render that created the effect. *)
Definition effectStep (shown : gmap string Q) (r : Ramp) (step : PipelineStep)
    : Ramp :=
  let currentProgress := get_or 0 shown (id step) in
  if bool_decide (status step = active) && negb (bool_decide (id step ∈ intervalsRef r))
  then mkRamp (<[id step := 5%Q]> (progressMap r))
         ({[id step]} ∪ intervalsRef r) ({[id step]} ∪ ticking r)
  else if bool_decide (status step = completed) then
    let r' := clearTimer (id step) r in
    if Qeq_bool currentProgress 100 then r' else setProgress (id step) 100 r'
  else if bool_decide (status step = pending) then
    let r' := clearTimer (id step) r in
    if Qeq_bool currentProgress 0 then r' else setProgress (id step) 0 r'
  else r.

Definition rampEffect (sts : list PipelineStep) (r : Ramp) : Ramp :=
  fold_left (effectStep (progressMap r)) sts r.

(** The cleanup of the effect clears every stored timer and keeps the
    handles. *)
Definition rampCleanup (r : Ramp) : Ramp :=
  mkRamp (progressMap r) (intervalsRef r) (ticking r ∖ intervalsRef r).

(** One firing of the timer of stage [i]. *)
Definition rampTick (o : Options) (i : string) (r : Ramp) : Ramp :=
  if bool_decide (i ∈ ticking r) then
    let current := get_or 5 (progressMap r) i in
    let next := Math_min (current + incrementPerMs o * intervalMs o) (maxProgress o) in
    setProgress i (inject_Z (Math_round next)) r
  else r.

(** ** Stages an event's handler updates

    The ids that the [updateStepStatus] calls of the event's [case] name. *)
Definition updatedStages (ev : Event) : list string :=
  match ev with
  | EvTranscript => ["transcription"; "analysis"]
  | EvAnalysis _ => ["analysis"]
  | EvResearch _ => ["analysis"; "generation"]
  | EvBroll _ => ["features"]
  | EvCarousel _ => ["generation"; "visuals"]
  | EvAudio _ => ["visuals"; "audio"]
  | EvAirtable => ["generation"; "features"; "storage"]
  | _ => []
  end.

(** ** Sample wire data

    A few lines of the protocol, the parser restricted to them, and
    their bytes, for running the loop on concrete streams. *)
Definition quote : string := String "034"%char "".

Definition newline : string := String "010"%char "".

Definition jsonString (s : string) : string := quote +:+ s +:+ quote.

(** [{"type":"ty"}] *)
Definition typeLine (ty : string) : string :=
  "{" +:+ jsonString "type" +:+ ":" +:+ jsonString ty +:+ "}".

(** [{"type":"ty","data":null}] *)
Definition dataLine (ty : string) : string :=
  "{" +:+ jsonString "type" +:+ ":" +:+ jsonString ty +:+ ","
      +:+ jsonString "data" +:+ ":null}".

(** [{"type":"error","error":"msg"}] *)
Definition errorLine (msg : string) : string :=
  "{" +:+ jsonString "type" +:+ ":" +:+ jsonString "error" +:+ ","
      +:+ jsonString "error" +:+ ":" +:+ jsonString msg +:+ "}".

Definition bytesOf (s : string) : list Byte.byte := String.list_byte_of_string s.

(** The code units of a string of ASCII characters. *)
Definition codeUnits (s : string) : jsstring :=
  map (λ b, Z.of_N (Byte.to_N b)) (bytesOf s).

Definition sampleParse (line : jsstring) : option Event :=
  if bool_decide (line = codeUnits (typeLine "transcript")) then Some EvTranscript
  else if bool_decide (line = codeUnits (dataLine "analysis")) then Some (EvAnalysis JNull)
  else if bool_decide (line = codeUnits (dataLine "research")) then Some (EvResearch JNull)
  else if bool_decide (line = codeUnits (dataLine "carousel")) then Some (EvCarousel JNull)
  else if bool_decide (line = codeUnits (typeLine "airtable")) then Some EvAirtable
  else if bool_decide (line = codeUnits (errorLine "rate limited"))
       then Some (EvError "rate limited")
  else None.

Definition twitterRun : FormData :=
  mkData "https://example.com/v" "client" "neutral" ["twitter"].

(** The same three lines (the last one unterminated) cut in two ways. *)
Definition chunksA : list (list Byte.byte) :=
  [ bytesOf (typeLine "transcript" +:+ newline +:+ dataLine "research");
    bytesOf (newline +:+ typeLine "airt") ].

Definition chunksB : list (list Byte.byte) :=
  [ bytesOf (typeLine "transcript"); bytesOf newline;
    bytesOf (dataLine "research" +:+ newline +:+ typeLine "airt") ].

(** The state a run for Twitter alone starts from. *)
Definition twitterStart : State := startRun twitterRun initialState.

(** A run that asks for Twitter, visuals and audio, and the state it
    is in once the [audio] event has been applied. *)
Definition fullRun : FormData :=
  mkData "https://example.com/v" "client" "neutral" ["twitter"; "visuals"; "audio"].

Definition audioActive : State :=
  stateOf (applyEvents [EvTranscript; EvResearch JNull; EvCarousel JNull; EvAudio JNull]
             (startRun fullRun initialState)).

(** A run in which the worker has reported 80 percent for the analysis
    stage, and the ramp as the hook's effect sets it for that state. *)
Definition analysisAt80 : State :=
  stateOf (applyEvents [EvTranscript; EvProgress "analysis" 80] twitterStart).

Definition rampAt80 : gmap string Q :=
  progressMap (rampEffect (steps analysisAt80) newRamp).

(** The state of a run whose generation stage is active, and the ramp
    after the hook's effect and a few ticks of the generation timer. *)
Definition generationActive : State :=
  stateOf (applyEvents [EvTranscript; EvAnalysis JNull; EvResearch JNull] twitterStart).

Definition generationRamp : Ramp :=
  rampTick homeOptions "generation"
    (rampTick homeOptions "generation"
      (rampEffect (steps generationActive) newRamp)).

(** A response whose second line is an [error] event, with a [research]
    line after it, and the state the run over it ends in. *)
Definition errorStream : list (list Byte.byte) :=
  [ bytesOf (typeLine "transcript" +:+ newline +:+ errorLine "rate limited"
             +:+ newline +:+ dataLine "research" +:+ newline) ].

Definition errorRun : State :=
  handleProcessVideo sampleParse twitterRun (Body errorStream Done) initialState.

(** The fields of a stage that no handler writes. *)
Definition heading (step : PipelineStep) : string * string * string :=
  (id step, label step, description step).

(** [event.type === "error"] *)
Definition isErrorEvent (ev : Event) : bool :=
  match ev with EvError _ => true | _ => false end.

(** ** The sidebar entries ([sidebarSteps] in [Home]) *)

Record SidebarStep := mkSidebar {
  sid : string;
  slabel : string;
  sstatus : StepStatus;
  sprogress : Q
}.

(** An entry whose own result is [own] and whose predecessor's is
    [prev]; [sim] is the ramp value the entry reads, [|| 30]. *)
Definition sidebarEntry (i lbl : string) (own prev : bool) (sim : Q) : SidebarStep :=
  mkSidebar i lbl
    (if own then completed else if prev then active else pending)
    (if own then 100 else if prev then sim else 0).

(** The filter of [sidebarSteps]. *)
Definition sidebarShown (selected : list string) (step : SidebarStep) : bool :=
  if includes ["analysis"; "research"] (sid step) then true
  else if negb (0 <? Z.of_nat (length selected)) then true
  else if bool_decide (sid step = "linkedin") && negb (includes selected "linkedin")
       then false
  else if bool_decide (sid step = "twitter") && negb (includes selected "twitter")
       then false
  else if bool_decide (sid step = "blog") && negb (includes selected "blog")
       then false
  else if bool_decide (sid step = "newsletter") && negb (includes selected "newsletter")
       then false
  else if bool_decide (sid step = "carousel") && negb (includes selected "visuals")
       then false
  else if bool_decide (sid step = "thumbnails") && negb (includes selected "visuals")
       then false
  else if bool_decide (sid step = "audio") && negb (includes selected "audio")
       then false
  else true.

(** [has k] is the outcome of the page's test on the entry [k] of
    [result]: [result?.k], and [result?.twitter_thread?.length > 0]
    for the Twitter thread.  [simulated] is the ramp map. *)
Definition sidebarSteps (has : string → bool) (loading : bool)
    (simulated : gmap string Q) (selected : list string) : list SidebarStep :=
  List.filter (sidebarShown selected)
    [ mkSidebar "analysis" "Insight"
        (if has "analysis" then completed else if loading then active else pending)
        (if has "analysis" then 100 else get_or 0 simulated "analysis");
      sidebarEntry "research" "Research" (has "research") (has "analysis")
        (get_or 30 simulated "analysis");
      sidebarEntry "linkedin" "LinkedIn" (has "linkedin_post") (has "research")
        (get_or 30 simulated "generation");
      sidebarEntry "twitter" "Twitter" (has "twitter_thread") (has "linkedin_post")
        (get_or 30 simulated "generation");
      sidebarEntry "blog" "Blog" (has "blog_post") (has "twitter_thread")
        (get_or 30 simulated "generation");
      sidebarEntry "newsletter" "Newsletter" (has "newsletter_html") (has "blog_post")
        (get_or 30 simulated "generation");
      sidebarEntry "carousel" "Carousel" (has "carousel") (has "newsletter_html")
        (get_or 30 simulated "visuals");
      sidebarEntry "thumbnails" "Thumbnails" (has "thumbnails") (has "carousel")
        (get_or 30 simulated "visuals");
      sidebarEntry "audio" "Audio" (has "audio") (has "thumbnails")
        (get_or 30 simulated "audio") ].

(** ** The log console (LogConsole.tsx) *)

(** [arr.slice(-n)]: the last [n] elements, all of them when there are
    fewer. *)
Definition slice_last {A} (n : nat) (arr : list A) : list A :=
  drop (length arr - n) arr.

(** [setLogs(prev => [...prev.slice(-100), message])] *)
Definition addLog (message : string) (prev : list string) : list string :=
  slice_last 100 prev ++ [message].

(** ** The platform selection (VideoInputForm.tsx) *)

Definition PLATFORMS : list string :=
  ["twitter"; "linkedin"; "blog"; "newsletter"; "audio"; "visuals"].

Definition togglePlatform (i : string) (prev : list string) : list string :=
  if includes prev i
  then List.filter (λ p, negb (bool_decide (p = i))) prev
  else prev ++ [i].

(** ** The carousel preview (ContentDisplay.tsx)

    [n] is the number of images of the variant shown, which is positive
    where the two functions exist; [%] is the remainder of JavaScript,
    with the sign of the dividend. *)
Definition nextSlide (n prev : Z) : Z := Z.rem (prev + 1) n.

Definition prevSlide (n prev : Z) : Z := Z.rem (prev - 1 + n) n.

(** ** The streaming request (api.ts) *)

(** What [fetch] delivers: a rejection with the error's [message], or a
    response with its status and, when it has one, its body. *)
Inductive FetchOutcome :=
  | Rejects (message : string)
  | Resolves (status : N) (body : option (list (list Byte.byte) * StreamEnd)).

(** [response.ok] *)
Definition ok (status : N) : bool := ((200 <=? status) && (status <=? 299))%N.

(** [error.message || "Neural link failed. Backend unreachable."] *)
Definition thrownMessage (message : string) : string :=
  if bool_decide (message = "") then "Neural link failed. Backend unreachable."
  else message.

(** [api.processVideoStream] as [handleProcessVideo] sees it. *)
Definition processVideoStream (o : FetchOutcome) : Response :=
  match o with
  | Rejects message => FetchThrows (thrownMessage message)
  | Resolves status body =>
      if ok status then
        match body with
        | Some (chunks, e) => Body chunks e
        | None => NoBody
        end
      else FetchThrows (thrownMessage ("HTTP error! status: " +:+ pretty status))
  end.

(** ** An invariant of the decoder

    While a sequence is open, the bytes seen are fewer than the bytes
    needed, the boundaries lie among the continuation bytes, and the
    code point gathered so far is positive, except right after a lead
    byte [E0] or [F0], whose raised lower boundary makes the next byte
    contribute at least 16. *)
Definition decoderOk (d : Decoder) : Prop :=
  bytes_needed d = 0
  ∨ (0 ≤ bytes_seen d < bytes_needed d
     ∧ 128 ≤ lower_boundary d ∧ upper_boundary d ≤ 191
     ∧ (1 ≤ code_point d
        ∨ (code_point d = 0 ∧ bytes_seen d = 0 ∧ 2 ≤ bytes_needed d
           ∧ 144 ≤ lower_boundary d))).

(** The number of line feeds in a text. *)
Definition countLF (t : jsstring) : nat := length (filter (λ c, c = LF) t).

(** The bytes of a chunk as numbers. *)
Definition byteValues (value : list Byte.byte) : list Z :=
  map (λ b, Z.of_N (Byte.to_N b)) value.

(** * Properties *)

(** ** Lines and remainders *)

Lemma split_lf_nonempty t : split_lf t ≠ [].
Proof.
  destruct t as [|c t]; simpl; [done|].
  destruct (c =? LF); [done|]. by destruct (split_lf t).
Qed.

Lemma pop_split_nil : pop (split_lf []) = ([], []).
Proof. reflexivity. Qed.

Lemma pop_split_cons c t :
  pop (split_lf (c :: t)) =
    let '(ls, r) := pop (split_lf t) in
    if c =? LF then ([] :: ls, r)
    else match ls with
         | [] => ([], c :: r)
         | l :: ls' => ((c :: l) :: ls', r)
         end.
Proof.
  pose proof (split_lf_nonempty t) as Hne.
  unfold pop. simpl split_lf.
  destruct (split_lf t) as [|seg segs]; [done|].
  destruct (c =? LF).
  - destruct segs; reflexivity.
  - destruct segs as [|seg' segs]; reflexivity.
Qed.

Lemma pop_split_app a b :
  pop (split_lf (a ++ b)) =
    let '(l1, r1) := pop (split_lf a) in
    let '(l2, r2) := pop (split_lf (r1 ++ b)) in
    (l1 ++ l2, r2).
Proof.
  induction a as [|c a IH].
  - rewrite pop_split_nil. cbn [app].
    destruct (pop (split_lf b)) as [l2 r2] eqn:E. reflexivity.
  - rewrite <- app_comm_cons, !pop_split_cons, IH.
    destruct (pop (split_lf a)) as [l1 r1].
    destruct (c =? LF) eqn:Hc.
    + destruct (pop (split_lf (r1 ++ b))) as [l2 r2]. reflexivity.
    + destruct l1 as [|l l1].
      * rewrite <- app_comm_cons, pop_split_cons, Hc.
        destruct (pop (split_lf (r1 ++ b))) as [l2 r2]. by destruct l2.
      * destruct (pop (split_lf (r1 ++ b))) as [l2 r2]. reflexivity.
Qed.

Lemma pop_split_spec t ls r :
  pop (split_lf t) = (ls, r) →
  t = flat_map (λ l, l ++ [LF]) ls ++ r ∧ (LF ∉ r) ∧ Forall (λ l, (LF ∉ l)) ls.
Proof.
  revert ls r. induction t as [|c t IH]; intros ls r.
  - rewrite pop_split_nil. intros [= <- <-].
    split_and!; [done|apply not_elem_of_nil|done].
  - rewrite pop_split_cons. destruct (pop (split_lf t)) as [ls' r'].
    destruct (IH _ _ eq_refl) as (Ht & Hr & Hls).
    destruct (c =? LF) eqn:Hc.
    + apply Z.eqb_eq in Hc. intros [= <- <-]. split_and!; [|done|].
      * simpl. by rewrite Hc, <- Ht.
      * constructor; [apply not_elem_of_nil|done].
    + apply Z.eqb_neq in Hc. destruct ls' as [|l ls''].
      * intros [= <- <-]. simpl in Ht. subst t.
        split_and!; [done| |done]. apply not_elem_of_cons. by split.
      * intros [= <- <-]. apply Forall_cons in Hls as [Hl Hls'].
        split_and!; [|done|].
        -- simpl in Ht. simpl. by rewrite Ht.
        -- constructor; [|done]. apply not_elem_of_cons. by split.
Qed.

(** A remainder holds no line feed, so cutting it again changes nothing. *)
Lemma pop_split_rest t ls r :
  pop (split_lf t) = (ls, r) → pop (split_lf r) = ([], r).
Proof.
  revert ls r. induction t as [|c t IH]; intros ls r.
  - rewrite pop_split_nil. by intros [= <- <-].
  - rewrite pop_split_cons. destruct (pop (split_lf t)) as [ls' r'] eqn:E.
    specialize (IH _ _ eq_refl).
    destruct (c =? LF) eqn:Hc; [by intros [= <- <-]|].
    destruct ls' as [|l ls'']; intros [= <- <-]; [|done].
    by rewrite pop_split_cons, IH, Hc.
Qed.

(** ** The decoder reads a stream the same way however it is cut *)

Lemma decode_app d a b :
  decode d (a ++ b) =
    let '(d1, t1) := decode d a in
    let '(d2, t2) := decode d1 b in
    (d2, t1 ++ t2).
Proof.
  revert d. induction a as [|x a IH]; intros d; simpl.
  - by destruct (decode d b).
  - destruct (decodeByte d _) as [d1 cps].
    destruct (skipBOMs d1 cps) as [d2 out].
    rewrite IH. destruct (decode d2 a) as [d3 t1].
    destruct (decode d3 b) as [d4 t2]. by rewrite app_assoc.
Qed.

Lemma frames_cons d buffer value chunks :
  frames d buffer (value :: chunks) =
    let '(d', text) := decode d value in
    let '(lines, buffer') := pop (split_lf (buffer ++ text)) in
    let '(more, rest) := frames d' buffer' chunks in
    (lines ++ more, rest).
Proof. reflexivity. Qed.

Lemma frames_decode chunks : ∀ d buffer,
  pop (split_lf buffer) = ([], buffer) →
  frames d buffer chunks = pop (split_lf (buffer ++ (decode d (concat chunks)).2)).
Proof.
  induction chunks as [|value chunks IH]; intros d buffer Hbuf.
  - simpl. by rewrite app_nil_r, Hbuf.
  - rewrite frames_cons. change (concat (value :: chunks)) with (value ++ concat chunks).
    rewrite decode_app. destruct (decode d value) as [d1 t1].
    destruct (decode d1 (concat chunks)) as [d2 t2] eqn:E2.
    change ((d2, t1 ++ t2).2) with (t1 ++ t2).
    rewrite app_assoc, (pop_split_app (buffer ++ t1) t2).
    destruct (pop (split_lf (buffer ++ t1))) as [lines buffer'] eqn:E1.
    cbv beta iota. rewrite (IH d1 buffer' (pop_split_rest _ _ _ E1)), E2.
    change ((d2, t2).2) with t2.
    by destruct (pop (split_lf (buffer' ++ t2))).
Qed.

Section LineLoop.

Variable JSON_parse : jsstring → option Event.

Lemma processLines_app l1 l2 s :
  processLines JSON_parse (l1 ++ l2) s =
    match processLines JSON_parse l1 s with
    | Continue s' => processLines JSON_parse l2 s'
    | Return s' => Return s'
    end.
Proof.
  revert s. induction l1 as [|line l1 IH]; intros s; simpl; [done|].
  destruct (isBlank line); [apply IH|].
  destruct (JSON_parse line) as [ev|]; [|apply IH].
  destruct (handleEvent ev s); [apply IH|done].
Qed.

(** The read loop applies the framed lines, and nothing else. *)
Lemma readLoop_cons d buffer value chunks s :
  readLoop JSON_parse d buffer (value :: chunks) s =
    let '(d', text) := decode d value in
    let '(lines, buffer') := pop (split_lf (buffer ++ text)) in
    match processLines JSON_parse lines s with
    | Continue s' => readLoop JSON_parse d' buffer' chunks s'
    | Return s' => Return s'
    end.
Proof. reflexivity. Qed.

(** The read loop applies the framed lines, and nothing else. *)
Lemma readLoop_frames chunks : ∀ d buffer s,
  readLoop JSON_parse d buffer chunks s =
    processLines JSON_parse (frames d buffer chunks).1 s.
Proof.
  induction chunks as [|value chunks IH]; intros d buffer s; [done|].
  rewrite readLoop_cons, frames_cons.
  destruct (decode d value) as [d1 t1].
  destruct (pop (split_lf (buffer ++ t1))) as [lines buffer'].
  cbv beta iota. specialize (IH d1 buffer').
  destruct (frames d1 buffer' chunks) as [more rest].
  change ((lines ++ more, rest).1) with (lines ++ more).
  rewrite processLines_app.
  destruct (processLines JSON_parse lines s); [apply IH|done].
Qed.

(** The line loop applies the events of its lines, in order, up to the
    first that returns. *)
Lemma processLines_applyEvents lines s :
  processLines JSON_parse lines s = applyEvents (eventsOf JSON_parse lines) s.
Proof.
  revert s. induction lines as [|line lines IH]; intros s; simpl; [done|].
  destruct (isBlank line); [apply IH|].
  destruct (JSON_parse line) as [ev|]; [|apply IH]. simpl.
  destruct (handleEvent ev s); [apply IH|done].
Qed.

End LineLoop.

(** ** Split invariance of the frame decoder *)

Lemma frames_concat chunks :
  frames newDecoder [] chunks = pop (split_lf (decode newDecoder (concat chunks)).2).
Proof. by rewrite frames_decode. Qed.

Lemma handleProcessVideo_lines JSON_parse data chunks e s :
  handleProcessVideo JSON_parse data (Body chunks e) s =
    match processLines JSON_parse (frames newDecoder [] chunks).1 (startRun data s) with
    | Return s' => finallyBlock s'
    | Continue s' =>
        match e with
        | Done => finallyBlock (markAllCompleted s')
        | ReadThrows msg => finallyBlock (catchBlock msg s')
        end
    end.
Proof. unfold handleProcessVideo. by rewrite readLoop_frames. Qed.

(** C6: however a byte stream is cut into chunks, the frame decoder
    hands over the same complete lines, in the same order, and the run
    ends in the same state.  The lines are exactly the segments of the
    decoded text that a line feed ends; what follows the last line feed
    stays in the buffer, is never handed over, and a stream that ends
    there finishes as a normal end of stream. *)
Theorem frame_decoder_split_invariant
    (JSON_parse : jsstring → option Event) (data : FormData)
    (cs1 cs2 : list (list Byte.byte)) (e : StreamEnd) (s : State) :
  concat cs1 = concat cs2 →
  frames newDecoder [] cs1 = frames newDecoder [] cs2
  ∧ handleProcessVideo JSON_parse data (Body cs1 e) s
    = handleProcessVideo JSON_parse data (Body cs2 e) s
  ∧ ∀ lines rest, frames newDecoder [] cs1 = (lines, rest) →
      (decode newDecoder (concat cs1)).2 = flat_map (λ l, l ++ [LF]) lines ++ rest
      ∧ (LF ∉ rest)
      ∧ Forall (λ l, (LF ∉ l)) lines
      ∧ handleProcessVideo JSON_parse data (Body cs1 Done) s
        = finallyBlock
            match processLines JSON_parse lines (startRun data s) with
            | Continue s' => markAllCompleted s'
            | Return s' => s'
            end.
Proof.
  intros Hcat.
  assert (Hfr : frames newDecoder [] cs1 = frames newDecoder [] cs2)
    by (by rewrite !frames_concat, Hcat).
  split_and!; [done| |].
  - by rewrite !handleProcessVideo_lines, Hfr.
  - intros lines rest Hlr.
    pose proof Hlr as Hcut. rewrite frames_concat in Hcut.
    destruct (pop_split_spec _ _ _ Hcut) as (Htext & Hrest & Hlines).
    split_and!; [done..|].
    rewrite handleProcessVideo_lines, Hlr. simpl.
    by destruct (processLines JSON_parse lines (startRun data s)).
Qed.

Lemma frame_decoder_split_invariant_witness :
  concat chunksA = concat chunksB
  ∧ frames newDecoder [] chunksA = frames newDecoder [] chunksB
  ∧ handleProcessVideo sampleParse twitterRun (Body chunksA Done) initialState
    = handleProcessVideo sampleParse twitterRun (Body chunksB Done) initialState.
Proof.
  assert (H : concat chunksA = concat chunksB) by (vm_compute; reflexivity).
  split; [exact H|].
  destruct (frame_decoder_split_invariant sampleParse twitterRun chunksA chunksB Done
              initialState H) as (Hf & Hr & _).
  split; [exact Hf|exact Hr].
Defined.

(** ** Stage status updates *)

Lemma map_updateStep_absent i st (sts : list PipelineStep) :
  (∀ step, step ∈ sts → id step ≠ i) → map (updateStep i st) sts = sts.
Proof.
  induction sts as [|step sts IH]; intros Habs; simpl; [done|].
  rewrite IH by (intros x Hx; apply Habs; by right).
  unfold updateStep. rewrite bool_decide_eq_false_2; [done|].
  apply Habs. by left.
Qed.

Lemma updateStepStatus_absent i st s :
  (∀ step, step ∈ steps s → id step ≠ i) → updateStepStatus i st s = s.
Proof.
  intros Habs. unfold updateStepStatus, setSteps.
  rewrite map_updateStep_absent by done. by destruct s.
Qed.

(** C10: a status update for an id that no stage carries changes
    nothing: every stage keeps its status and its progress (the whole
    state is the one before).  So the update of "features" in the
    [broll] handler leaves the stage list as it was, and the [airtable]
    handler does what its two other updates do. *)
Theorem update_of_absent_stage_is_noop (i : string) (st : StepStatus) (s : State) :
  (∀ step, step ∈ steps s → id step ≠ i) →
  updateStepStatus i st s = s
  ∧ (i = "features" →
       (∀ data, steps (stateOf (handleEvent (EvBroll data) s)) = steps s)
       ∧ handleEvent EvAirtable s
         = Continue (updateStepStatus "storage" completed
                      (updateStepStatus "generation" completed s))).
Proof.
  intros Habs. split; [by apply updateStepStatus_absent|].
  intros ->. split.
  - intros data. simpl. by rewrite map_updateStep_absent.
  - simpl. do 2 f_equal. apply updateStepStatus_absent.
    intros step Hstep. simpl in Hstep.
    apply list_elem_of_fmap in Hstep as (step' & -> & Hstep').
    unfold updateStep. case_bool_decide; simpl; by apply Habs.
Qed.

Lemma update_of_absent_stage_is_noop_witness :
  updateStepStatus "features" active twitterStart = twitterStart
  ∧ steps (stateOf (handleEvent (EvBroll JNull) twitterStart)) = steps twitterStart.
Proof.
  assert (Habs : ∀ step, step ∈ steps twitterStart → id step ≠ "features").
  { intros step Hstep. vm_compute in Hstep.
    repeat (apply elem_of_cons in Hstep as [->|Hstep]; [discriminate|]).
    by apply elem_of_nil in Hstep. }
  destruct (update_of_absent_stage_is_noop "features" active twitterStart Habs)
    as [H1 H2].
  split; [exact H1|]. destruct (H2 eq_refl) as [H3 _]. apply H3.
Defined.

Lemma lookup_map {A B} (f : A → B) (l : list A) (i : nat) :
  map f l !! i = f <$> l !! i.
Proof.
  revert i. induction l as [|x l IH]; intros [|i]; simpl; auto.
Qed.

(** ** Reset *)

(** C9: whatever the state before (mid-run, after an error, after
    completion), [resetSteps] puts the stage list back to the initial
    plan, in which every stage is pending, and empties the results
    aggregate; it also clears the error and the loading flag. *)
Theorem resetSteps_restores_plan_and_empties_results
    (backendFails : bool) (s : State) :
  steps (resetSteps backendFails s) = INITIAL_STEPS
  ∧ Forall (λ step, status step = pending) (steps (resetSteps backendFails s))
  ∧ result (resetSteps backendFails s) = None
  ∧ error_msg (resetSteps backendFails s) = None
  ∧ isLoading (resetSteps backendFails s) = false.
Proof.
  split_and!; try reflexivity.
  simpl. unfold INITIAL_STEPS. repeat constructor.
Qed.

(** ** Stage plan *)

(** C7 as stated does not hold: the plan for Twitter alone has no
    stage called "blog", so none that is skipped. *)
Lemma twitter_plan_has_no_blog_stage :
  ¬ (statusOf (smartSteps ["twitter"]) "blog" = Some skipped
     ∧ statusOf (smartSteps ["twitter"]) "newsletter" = Some skipped
     ∧ statusOf (smartSteps ["twitter"]) "visuals" = Some skipped
     ∧ statusOf (smartSteps ["twitter"]) "audio" = Some skipped
     ∧ statusOf (smartSteps ["twitter"]) "transcription" = Some pending
     ∧ statusOf (smartSteps ["twitter"]) "analysis" = Some pending
     ∧ statusOf (smartSteps ["twitter"]) "generation" = Some pending
     ∧ statusOf (smartSteps ["twitter"]) "storage" = Some pending).
Proof. intros [Hblog _]. vm_compute in Hblog. discriminate. Qed.

(** C7, amended: for requested outputs = {twitter} the plan has the
    six stages transcription, analysis, generation, visuals, audio and
    storage, with visuals and audio skipped and the four others
    pending; blog and newsletter are not stages of the plan. *)
Theorem twitter_plan_statuses :
  map (λ step, (id step, status step)) (smartSteps ["twitter"])
  = [ ("transcription", pending); ("analysis", pending); ("generation", pending);
      ("visuals", skipped); ("audio", skipped); ("storage", pending) ]
  ∧ statusOf (smartSteps ["twitter"]) "blog" = None
  ∧ statusOf (smartSteps ["twitter"]) "newsletter" = None.
Proof. split_and!; vm_compute; reflexivity. Qed.

(** ** The terminal event *)

(** C4 as stated does not hold: the audio stage is active when the
    terminal event arrives, and is still active after it. *)
Lemma airtable_leaves_audio_active :
  statusOf (steps audioActive) "audio" = Some active
  ∧ statusOf (steps (stateOf (handleEvent EvAirtable audioActive))) "audio"
    = Some active.
Proof. split; vm_compute; reflexivity. Qed.

Lemma updateStep_eq i st step :
  updateStep i st step =
    if bool_decide (id step = i)
    then mkStep (id step) (label step) (description step) st
           (if bool_decide (st = completed) then Some 100 else progress step)
    else step.
Proof. reflexivity. Qed.

(** C4, amended: when the [airtable] event is applied, the stages
    with id generation and storage (and features, if there were one)
    become completed with progress 100, whatever their status was;
    every other stage, active or not, is left as it is. *)
Theorem airtable_completes_generation_and_storage
    (s : State) (i : nat) (step : PipelineStep) :
  steps s !! i = Some step →
  steps (stateOf (handleEvent EvAirtable s)) !! i
  = Some (if bool_decide (id step ∈ ["generation"; "features"; "storage"])
          then mkStep (id step) (label step) (description step) completed (Some 100)
          else step).
Proof.
  intros Hi. simpl. rewrite !lookup_map, Hi. simpl. f_equal.
  rewrite !updateStep_eq.
  destruct (decide (id step = "generation")) as [Hg|Hg];
    destruct (decide (id step = "features")) as [Hf|Hf];
    destruct (decide (id step = "storage")) as [Hs|Hs];
    try congruence.
  - rewrite (bool_decide_eq_true_2 _ Hg). simpl. rewrite Hg. reflexivity.
  - rewrite (bool_decide_eq_false_2 _ Hg), (bool_decide_eq_true_2 _ Hf). simpl.
    rewrite Hf. reflexivity.
  - rewrite (bool_decide_eq_false_2 _ Hg), (bool_decide_eq_false_2 _ Hf),
      (bool_decide_eq_true_2 _ Hs). simpl. rewrite Hs. reflexivity.
  - rewrite (bool_decide_eq_false_2 _ Hg), (bool_decide_eq_false_2 _ Hf),
      (bool_decide_eq_false_2 _ Hs).
    rewrite bool_decide_eq_false_2; [done|].
    rewrite !elem_of_cons, elem_of_nil. intros [?|[?|[?|[]]]]; congruence.
Qed.

Lemma airtable_completes_generation_and_storage_witness :
  steps audioActive !! 4%nat
    = Some (mkStep "audio" "Audio Hub" "Neural Dubbing" active None)
  ∧ steps (stateOf (handleEvent EvAirtable audioActive)) !! 4%nat
    = Some (mkStep "audio" "Audio Hub" "Neural Dubbing" active None).
Proof.
  assert (H : steps audioActive !! 4%nat
              = Some (mkStep "audio" "Audio Hub" "Neural Dubbing" active None))
    by (vm_compute; reflexivity).
  split; [exact H|].
  exact (airtable_completes_generation_and_storage audioActive 4 _ H).
Defined.

(** ** Displayed progress *)

(** [Math_round] gives the nearest integer, the upper one at a tie. *)
Lemma Math_round_nearest x :
  (inject_Z (Math_round x) - (1 # 2) <= x)%Q
  ∧ (x < inject_Z (Math_round x) + (1 # 2))%Q.
Proof.
  unfold Math_round.
  pose proof (Qfloor_le (x + (1 # 2))) as Hlo.
  pose proof (Qlt_floor (x + (1 # 2))) as Hhi.
  rewrite inject_Z_plus in Hhi.
  set (z := inject_Z (Qfloor (x + (1 # 2)))) in *.
  change (inject_Z 1) with 1%Q in Hhi. split; lra.
Qed.

Lemma Math_round_le x y : (x <= y)%Q → Math_round x ≤ Math_round y.
Proof. intros H. apply Qfloor_resp_le. lra. Qed.

Lemma Math_round_eq x y : (x == y)%Q → Math_round x = Math_round y.
Proof. intros H. apply Qfloor_comp. by rewrite H. Qed.

(** Reading a key just written gives the value written (zero reads as
    the default zero). *)
Lemma get_or_insert_eq (m : gmap string Q) k p :
  (get_or 0 (<[k := p]> m) k == p)%Q.
Proof.
  unfold get_or. rewrite lookup_insert_eq.
  destruct (Qeq_bool p 0) eqn:E; [|reflexivity].
  apply Qeq_bool_eq in E. by rewrite E.
Qed.

Lemma get_or_insert_ne (m : gmap string Q) d k k' p :
  k ≠ k' → get_or d (<[k := p]> m) k' = get_or d m k'.
Proof. intros H. unfold get_or. by rewrite lookup_insert_ne. Qed.

Lemma displayProgress_eq s sim i step :
  steps s !! i = Some step →
  displayProgress s sim i
  = Some (Math_round
            match status step with
            | completed => 100%Q
            | active => Math_max (get_or 0 (realProgress s) (id step))
                          (get_or 0 sim (id step))
            | _ => 0%Q
            end).
Proof.
  intros Hi. unfold displayProgress, stepsWithProgress.
  rewrite lookup_map, Hi. reflexivity.
Qed.

(** C5: the displayed progress of an active stage is the larger of
    its reported percent and its ramp value (each read as 0 when
    absent), rounded to an integer.  In particular, with the ramp of an
    active stage at 55, the stage shows 55 as long as its reported
    percent is at most 55, and still shows 55 once a [progress] event
    has reported 40 for it. *)
Theorem active_stage_shows_rounded_max
    (s : State) (sim : gmap string Q) (i : nat) (step : PipelineStep) :
  steps s !! i = Some step →
  status step = active →
  displayProgress s sim i
  = Some (Math_round (Math_max (get_or 0 (realProgress s) (id step))
                        (get_or 0 sim (id step))))
  ∧ ((get_or 0 sim (id step) == 55)%Q →
       ((get_or 0 (realProgress s) (id step) <= 55)%Q →
          displayProgress s sim i = Some 55)
       ∧ displayProgress (stateOf (handleEvent (EvProgress (id step) 40) s)) sim i
         = Some 55).
Proof.
  intros Hi Hact. split.
  - rewrite (displayProgress_eq _ _ _ _ Hi), Hact. reflexivity.
  - intros Hsim. split.
    + intros Hreal. rewrite (displayProgress_eq _ _ _ _ Hi), Hact. f_equal.
      change 55 with (Math_round 55). apply Math_round_eq.
      unfold Math_max. rewrite Q.max_r; [done|]. by rewrite Hsim.
    + simpl stateOf.
      rewrite (displayProgress_eq _ _ i step) by exact Hi.
      rewrite Hact. f_equal.
      change 55 with (Math_round 55). apply Math_round_eq.
      unfold Math_max. simpl realProgress.
      rewrite Q.max_r; [done|].
      rewrite get_or_insert_eq, Hsim. discriminate.
Qed.

Lemma active_stage_shows_rounded_max_witness :
  displayProgress
    (stateOf (handleEvent (EvProgress "analysis" 40)
                (stateOf (handleEvent EvTranscript twitterStart))))
    {[ "analysis" := 55%Q ]} 1
  = Some 55.
Proof.
  assert (Hi : steps (stateOf (handleEvent EvTranscript twitterStart)) !! 1%nat
               = Some (mkStep "analysis" "Intelligence" "Brain + Research" active None))
    by (vm_compute; reflexivity).
  destruct (active_stage_shows_rounded_max _ {[ "analysis" := 55%Q ]} 1 _ Hi eq_refl)
    as [_ H].
  apply H. vm_compute. reflexivity.
Defined.

(** C1: the code at the failing input.  The merge takes the maximum
    of the reported percent and the ramp "to ensure smooth upward
    movement", but the [progress] case overwrites the reported percent
    and nothing keeps the higher one: the worker has reported 80 for
    the active analysis stage, the ramp stands at 5, and a report of 40
    takes the displayed value from 80 down to 40. *)
Lemma lower_report_lowers_display :
  realProgress analysisAt80 !! "analysis" = Some 80%Q
  ∧ (40 < 80)%Q
  ∧ displayProgress analysisAt80 rampAt80 1 = Some 80
  ∧ displayProgress (stateOf (handleEvent (EvProgress "analysis" 40) analysisAt80))
      rampAt80 1 = Some 40
  ∧ 40 < 80.
Proof. split_and!; vm_compute; reflexivity. Qed.

(** What the merge with the ramp does guarantee.  A [progress] event
    writes its percent as the reported percent of its stage and leaves
    the other stages' reports as they were.  The displayed value of an
    active stage is never below its rounded ramp value, before or after
    the event; and the event does not decrease a stage's displayed
    value when the stage is not active, or is not the stage of the
    event, or had a reported percent that was at most its ramp value. *)
Theorem lower_report_keeps_display_above_ramp
    (s : State) (sim : gmap string Q) (stage : string) (percent : Q)
    (i : nat) (step : PipelineStep) :
  steps s !! i = Some step →
  realProgress (stateOf (handleEvent (EvProgress stage percent) s))
  = <[stage := percent]> (realProgress s)
  ∧ ∃ before after,
      displayProgress s sim i = Some before
      ∧ displayProgress (stateOf (handleEvent (EvProgress stage percent) s)) sim i
        = Some after
      ∧ (status step = active →
           Math_round (get_or 0 sim (id step)) ≤ before
           ∧ Math_round (get_or 0 sim (id step)) ≤ after
           ∧ (id step = stage →
                after = Math_round (Math_max (if Qeq_bool percent 0 then 0 else percent)
                                      (get_or 0 sim (id step)))))
      ∧ (status step ≠ active ∨ id step ≠ stage
         ∨ (get_or 0 (realProgress s) (id step) <= get_or 0 sim (id step))%Q →
         before ≤ after).
Proof.
  intros Hi. split; [reflexivity|].
  eexists _, _. split; [exact (displayProgress_eq _ _ _ _ Hi)|].
  simpl stateOf. split; [apply displayProgress_eq with (step := step); exact Hi|].
  simpl realProgress. split.
  - intros ->. split_and!; [apply Math_round_le, Q.le_max_r..|].
    intros <-. unfold get_or at 1. by rewrite lookup_insert_eq.
  - intros Hcase.
    destruct (decide (status step = active)) as [Hact|Hact];
      [|destruct (status step); (reflexivity || done)].
    rewrite Hact. apply Math_round_le.
    destruct (decide (id step = stage)) as [Hid|Hid];
      [|rewrite get_or_insert_ne by done; apply Qle_refl].
    destruct Hcase as [?|[?|Hle]]; [done..|].
    unfold Math_max. rewrite (Q.max_r _ _ Hle). apply Q.le_max_r.
Qed.

Lemma lower_report_keeps_display_above_ramp_witness :
  ∃ before after,
    displayProgress (stateOf (handleEvent EvTranscript twitterStart))
      {[ "analysis" := 55%Q ]} 1 = Some before
    ∧ displayProgress
        (stateOf (handleEvent (EvProgress "analysis" 40)
                    (stateOf (handleEvent EvTranscript twitterStart))))
        {[ "analysis" := 55%Q ]} 1 = Some after
    ∧ before ≤ after.
Proof.
  assert (Hi : steps (stateOf (handleEvent EvTranscript twitterStart)) !! 1%nat
               = Some (mkStep "analysis" "Intelligence" "Brain + Research" active None))
    by (vm_compute; reflexivity).
  destruct (lower_report_keeps_display_above_ramp _ {[ "analysis" := 55%Q ]}
              "analysis" 40 1 _ Hi) as (_ & before & after & Hb & Ha & _ & Hle).
  exists before, after. split; [exact Hb|]. split; [exact Ha|].
  apply Hle. right. right. vm_compute. discriminate.
Defined.

(** ** The ramp effect *)

Lemma clearTimer_progressMap i r : progressMap (clearTimer i r) = progressMap r.
Proof. unfold clearTimer. by case_bool_decide. Qed.

Lemma clearTimer_intervals i r k :
  k ∈ intervalsRef (clearTimer i r) ↔ k ∈ intervalsRef r ∧ k ≠ i.
Proof.
  unfold clearTimer. case_bool_decide; simpl; [set_solver|].
  split; [|by intros [? _]]. intros Hk. split; [done|]. by intros ->.
Qed.

Lemma effectStep_other shown r step k :
  id step ≠ k →
  progressMap (effectStep shown r step) !! k = progressMap r !! k
  ∧ (k ∈ intervalsRef (effectStep shown r step) ↔ k ∈ intervalsRef r).
Proof.
  intros Hk. unfold effectStep.
  destruct (bool_decide (status step = active) &&
            negb (bool_decide (id step ∈ intervalsRef r))); simpl.
  { rewrite lookup_insert_ne by done. split; [done|set_solver]. }
  repeat case_bool_decide; try destruct (Qeq_bool _ _); simpl;
    rewrite ?lookup_insert_ne by done; rewrite ?clearTimer_progressMap;
    rewrite ?clearTimer_intervals; naive_solver.
Qed.

Lemma rampEffect_other shown k sts : ∀ r,
  (∀ step, step ∈ sts → id step ≠ k) →
  progressMap (fold_left (effectStep shown) sts r) !! k = progressMap r !! k
  ∧ (k ∈ intervalsRef (fold_left (effectStep shown) sts r) ↔ k ∈ intervalsRef r).
Proof.
  induction sts as [|step sts IH]; intros r Hk; simpl; [done|].
  destruct (IH (effectStep shown r step)) as [H1 H2].
  { intros x Hx. apply Hk. by right. }
  destruct (effectStep_other shown r step k) as [H3 H4].
  { apply Hk. by left. }
  rewrite H1, H2, H3, H4. done.
Qed.

Lemma effectStep_pending shown r step :
  status step = pending →
  progressMap r !! id step = shown !! id step →
  get_or 0 (progressMap (effectStep shown r step)) (id step) = 0%Q
  ∧ id step ∉ intervalsRef (effectStep shown r step).
Proof.
  intros Hst Hshown. unfold effectStep. rewrite Hst. simpl.
  destruct (Qeq_bool (get_or 0 shown (id step)) 0) eqn:E; simpl.
  - rewrite clearTimer_progressMap, clearTimer_intervals. split; [|naive_solver].
    unfold get_or in *. rewrite Hshown. destruct (shown !! id step) as [v|]; [|done].
    destruct (Qeq_bool v 0) eqn:Ev; [done|]. by rewrite Ev in E.
  - rewrite clearTimer_intervals. split; [|naive_solver].
    unfold get_or. by rewrite lookup_insert_eq.
Qed.

Lemma rampEffect_pending shown k sts : ∀ r step,
  step ∈ sts → id step = k → status step = pending →
  NoDup (map id sts) →
  progressMap r !! k = shown !! k →
  get_or 0 (progressMap (fold_left (effectStep shown) sts r)) k = 0%Q
  ∧ k ∉ intervalsRef (fold_left (effectStep shown) sts r).
Proof.
  induction sts as [|x sts IH]; intros r step Hin Hid Hst Hnd Hshown.
  { by apply elem_of_nil in Hin. }
  simpl in Hnd. apply NoDup_cons in Hnd as [Hx Hnd]. simpl.
  apply elem_of_cons in Hin as [Heq|Hin].
  - subst x k.
    destruct (effectStep_pending shown r step Hst Hshown) as [H1 H2].
    destruct (rampEffect_other shown (id step) sts (effectStep shown r step))
      as [H3 H4].
    { intros y Hy Heq. apply Hx. rewrite <- Heq. apply list_elem_of_In, in_map.
      by apply list_elem_of_In. }
    unfold get_or in *. rewrite H3, H4. done.
  - assert (Hxk : id x ≠ k).
    { intros Heq. apply Hx. rewrite Heq, <- Hid. apply list_elem_of_In, in_map.
      by apply list_elem_of_In. }
    destruct (effectStep_other shown r x k Hxk) as [H1 _].
    apply (IH _ step); try done. by rewrite H1.
Qed.

(** ** Stop *)

Lemma stop_steps s :
  steps (handleStopPipeline s)
  = map (λ step, if bool_decide (status step = active)
                 then with_status pending step else step) (steps s).
Proof. reflexivity. Qed.

Lemma stop_keeps_ids s : map id (steps (handleStopPipeline s)) = map id (steps s).
Proof.
  rewrite stop_steps, map_map. apply map_ext. intros step.
  by case_bool_decide.
Qed.

(** C8: when [handleStopPipeline] runs while a stage is active, the
    stage becomes pending, its displayed progress is 0 whatever the
    two progress channels hold, and the error surfaced is the fixed
    text of a stop by the user; the hook's next effect resets the ramp
    value of the stage to 0 and drops its timer.  A transport failure
    in the same state differs on both counts: it marks the stage
    error and surfaces the failure's own text. *)
Theorem stop_returns_active_stage_to_pending
    (s : State) (sim : gmap string Q) (r : Ramp) (i : nat) (step : PipelineStep) :
  steps s !! i = Some step →
  status step = active →
  NoDup (map id (steps s)) →
  steps (handleStopPipeline s) !! i = Some (with_status pending step)
  ∧ displayProgress (handleStopPipeline s) sim i = Some 0
  ∧ error_msg (handleStopPipeline s) = Some "Pipeline stopped by user"
  ∧ get_or 0 (progressMap (rampEffect (steps (handleStopPipeline s)) (rampCleanup r)))
      (id step) = 0%Q
  ∧ (id step ∉ intervalsRef (rampEffect (steps (handleStopPipeline s)) (rampCleanup r)))
  ∧ ∀ msg, steps (catchBlock msg s) !! i = Some (with_status error step)
           ∧ error_msg (catchBlock msg s) = Some msg.
Proof.
  intros Hi Hact Hnd.
  assert (Hstop : steps (handleStopPipeline s) !! i = Some (with_status pending step)).
  { rewrite stop_steps, lookup_map, Hi. simpl.
    by rewrite bool_decide_eq_true_2. }
  split_and!; [done| |done| | |].
  - by rewrite (displayProgress_eq _ _ _ _ Hstop).
  - apply (rampEffect_pending _ _ _ _ (with_status pending step)); try done.
    + apply list_elem_of_lookup. by exists i.
    + by rewrite stop_keeps_ids.
  - apply (rampEffect_pending _ _ _ _ (with_status pending step)); try done.
    + apply list_elem_of_lookup. by exists i.
    + by rewrite stop_keeps_ids.
  - intros msg. split; [|done]. simpl. rewrite lookup_map, Hi. simpl.
    by rewrite bool_decide_eq_true_2.
Qed.

Lemma stop_returns_active_stage_to_pending_witness :
  statusOf (steps generationActive) "generation" = Some active
  ∧ steps (handleStopPipeline generationActive) !! 2%nat
    = Some (mkStep "generation" "Content Hub" "Social Assets" pending None)
  ∧ displayProgress (handleStopPipeline generationActive)
      (progressMap generationRamp) 2 = Some 0
  ∧ error_msg (handleStopPipeline generationActive) = Some "Pipeline stopped by user"
  ∧ get_or 0 (progressMap (rampEffect (steps (handleStopPipeline generationActive))
                             (rampCleanup generationRamp))) "generation" = 0%Q.
Proof.
  assert (Hi : steps generationActive !! 2%nat
               = Some (mkStep "generation" "Content Hub" "Social Assets" active None))
    by (vm_compute; reflexivity).
  assert (Hnd : NoDup (map id (steps generationActive))).
  { apply (bool_decide_unpack _). vm_compute. exact I. }
  destruct (stop_returns_active_stage_to_pending generationActive
              (progressMap generationRamp) generationRamp 2 _ Hi eq_refl Hnd)
    as (H1 & H2 & H3 & H4 & _).
  split; [vm_compute; reflexivity|]. split; [exact H1|]. split; [exact H2|].
  split; [exact H3|exact H4].
Defined.

(** ** Skipped stages *)


Lemma updateStep_other i st step : id step ≠ i → updateStep i st step = step.
Proof. intros H. unfold updateStep. by rewrite bool_decide_eq_false_2. Qed.

Lemma updateStep_status i st step :
  id step = i → status (updateStep i st step) = st.
Proof. intros H. unfold updateStep. by rewrite bool_decide_eq_true_2. Qed.

Lemma updateStep_id i st step : id (updateStep i st step) = id step.
Proof. unfold updateStep. by case_bool_decide. Qed.

(** The stage list after an event, as the handler's updates in order. *)
Lemma handleEvent_steps ev s :
  steps (stateOf (handleEvent ev s))
  = match ev with
    | EvTranscript =>
        map (updateStep "analysis" active)
          (map (updateStep "transcription" completed) (steps s))
    | EvAnalysis _ => map (updateStep "analysis" active) (steps s)
    | EvResearch _ =>
        map (updateStep "generation" active)
          (map (updateStep "analysis" completed) (steps s))
    | EvBroll _ => map (updateStep "features" active) (steps s)
    | EvCarousel _ =>
        map (updateStep "visuals" active)
          (map (updateStep "generation" completed) (steps s))
    | EvAudio _ =>
        map (updateStep "audio" active)
          (map (updateStep "visuals" completed) (steps s))
    | EvAirtable =>
        map (updateStep "storage" completed)
          (map (updateStep "features" completed)
            (map (updateStep "generation" completed) (steps s)))
    | _ => steps s
    end.
Proof. by destruct ev. Qed.

Lemma updates_elsewhere ev step :
  id step ∉ updatedStages ev →
  ∀ s i, steps s !! i = Some step →
  steps (stateOf (handleEvent ev s)) !! i = Some step.
Proof.
  intros Hn s i Hi. rewrite handleEvent_steps.
  destruct ev; simpl in Hn; rewrite ?lookup_map, ?Hi; simpl; try done;
    rewrite ?not_elem_of_cons in Hn; destruct_and?;
    by rewrite !updateStep_other by (rewrite ?updateStep_id; done).
Qed.

Lemma updateStep_not_skipped i st x :
  st ≠ skipped → id x = i ∨ status x ≠ skipped →
  status (updateStep i st x) ≠ skipped.
Proof. intros Hst Hx. unfold updateStep. case_bool_decide; simpl; naive_solver. Qed.

Ltac not_skipped step :=
  lazymatch goal with
  | |- status (updateStep ?i _ _) ≠ skipped =>
      apply updateStep_not_skipped; [done|]; rewrite ?updateStep_id;
      destruct (decide (id step = i)); [by left|right; not_skipped step]
  | _ => naive_solver
  end.

Lemma updates_named ev step :
  id step ∈ updatedStages ev →
  ∀ s i, steps s !! i = Some step →
  ∃ step', steps (stateOf (handleEvent ev s)) !! i = Some step'
           ∧ status step' ≠ skipped.
Proof.
  intros Hin s i Hi. rewrite handleEvent_steps.
  destruct ev; simpl in Hin; try (by apply elem_of_nil in Hin);
    rewrite ?lookup_map, ?Hi; simpl; eexists; (split; [reflexivity|]);
    rewrite ?elem_of_cons, elem_of_nil in Hin; not_skipped step.
Qed.



(** ** The error event *)

(** C3: what the code does with an [error] event.  The handler sets
    the error to the event's text and returns, so no later event is
    applied; it leaves the stage list as it is, so a stage that was
    active stays active and none becomes error.  On the stream
    transcript, error "rate limited", research: the analysis stage is
    still active at the end, the error is "rate limited", and the
    research line has had no effect. *)
Theorem error_event_keeps_active_stage_active :
  (∀ err evs s,
     applyEvents (EvError err :: evs) s
       = Return (setIsLoading false (setError (Some err) s))
     ∧ steps (stateOf (applyEvents (EvError err :: evs) s)) = steps s
     ∧ error_msg (stateOf (applyEvents (EvError err :: evs) s)) = Some err)
  ∧ statusOf (steps errorRun) "analysis" = Some active
  ∧ error_msg errorRun = Some "rate limited"
  ∧ statusOf (steps errorRun) "generation" = Some pending
  ∧ (result errorRun ≫= (λ m, m !! "research")) = None.
Proof.
  split; [by intros err evs s|].
  split_and!; vm_compute; reflexivity.
Qed.

(** * Further properties of the page *)

(** ** The stage plan for any request *)

Lemma includes_spec arr x : includes arr x = true ↔ x ∈ arr.
Proof. unfold includes. by rewrite bool_decide_eq_true. Qed.

Lemma smartSteps_eq platforms :
  smartSteps platforms
  = [ mkStep "transcription" "Transcription" "Local Whisper" pending None;
      mkStep "analysis" "Intelligence" "Brain + Research" pending None;
      mkStep "generation" "Content Hub" "Social Assets"
        (if existsb (includes platforms) ["twitter"; "blog"; "linkedin"; "newsletter"]
         then pending else skipped) None;
      mkStep "visuals" "Visual Studio" "Carousel + Thumbnails"
        (if includes platforms "visuals" then pending else skipped) None;
      mkStep "audio" "Audio Hub" "Neural Dubbing"
        (if includes platforms "audio" then pending else skipped) None;
      mkStep "storage" "Airtable" "Production Board" pending None ].
Proof.
  unfold smartSteps, INITIAL_STEPS. cbn [map]. unfold smartStep. cbn [id].
  generalize (existsb (includes platforms) ["twitter"; "blog"; "linkedin"; "newsletter"]).
  generalize (includes platforms "visuals"). generalize (includes platforms "audio").
  by intros [] [] [].
Qed.

Lemma smartSteps_pending_or_skipped platforms :
  Forall (λ step, status step = pending ∨ status step = skipped) (smartSteps platforms).
Proof.
  rewrite smartSteps_eq.
  repeat first [apply Forall_nil | apply Forall_cons; split];
    simpl; repeat case_match; auto.
Qed.

(** X1: for every list of requested platforms the plan has the six
    stages in their fixed order; transcription, analysis and storage
    are pending; generation is pending exactly when twitter, blog,
    linkedin or newsletter is requested, visuals exactly when visuals
    is, audio exactly when audio is, and skipped otherwise.  A plan
    holds no active, completed or error stage. *)
Theorem smartSteps_statuses (platforms : list string) :
  map id (smartSteps platforms)
  = ["transcription"; "analysis"; "generation"; "visuals"; "audio"; "storage"]
  ∧ statusOf (smartSteps platforms) "transcription" = Some pending
  ∧ statusOf (smartSteps platforms) "analysis" = Some pending
  ∧ statusOf (smartSteps platforms) "storage" = Some pending
  ∧ statusOf (smartSteps platforms) "generation"
    = Some (if bool_decide ("twitter" ∈ platforms ∨ "blog" ∈ platforms
                            ∨ "linkedin" ∈ platforms ∨ "newsletter" ∈ platforms)
            then pending else skipped)
  ∧ statusOf (smartSteps platforms) "visuals"
    = Some (if bool_decide ("visuals" ∈ platforms) then pending else skipped)
  ∧ statusOf (smartSteps platforms) "audio"
    = Some (if bool_decide ("audio" ∈ platforms) then pending else skipped)
  ∧ Forall (λ step, status step = pending ∨ status step = skipped)
      (smartSteps platforms).
Proof.
  assert (Hgen : existsb (includes platforms) ["twitter"; "blog"; "linkedin"; "newsletter"]
                 = bool_decide ("twitter" ∈ platforms ∨ "blog" ∈ platforms
                                ∨ "linkedin" ∈ platforms ∨ "newsletter" ∈ platforms)).
  { simpl. unfold includes. rewrite orb_false_r.
    rewrite !bool_decide_or. reflexivity. }
  split_and!; [..|apply smartSteps_pending_or_skipped];
    rewrite smartSteps_eq, ?Hgen; reflexivity.
Qed.

(** ** Stages are never added, removed or renamed *)

Lemma updateStep_heading i st step : heading (updateStep i st step) = heading step.
Proof. unfold updateStep. by case_bool_decide. Qed.

Lemma map_updateStep_heading i st sts :
  map heading (map (updateStep i st) sts) = map heading sts.
Proof.
  rewrite map_map. apply map_ext. intros step. apply updateStep_heading.
Qed.

Lemma handleEvent_heading ev s :
  map heading (steps (stateOf (handleEvent ev s))) = map heading (steps s).
Proof.
  rewrite handleEvent_steps. destruct ev; by rewrite ?map_updateStep_heading.
Qed.

Lemma applyEvents_heading evs : ∀ s,
  map heading (steps (stateOf (applyEvents evs s))) = map heading (steps s).
Proof.
  induction evs as [|ev evs IH]; intros s; simpl; [done|].
  pose proof (handleEvent_heading ev s) as Hev.
  destruct (handleEvent ev s) as [s'|s']; simpl in *; [|done].
  by rewrite IH.
Qed.

Lemma smartSteps_heading platforms :
  map heading (smartSteps platforms) = map heading INITIAL_STEPS.
Proof.
  unfold smartSteps. rewrite map_map. apply map_ext_in. intros step Hin.
  unfold smartStep.
  repeat match goal with
         | |- context [if ?b then _ else _] => destruct b
         end; reflexivity.
Qed.

Lemma catchBlock_heading msg s :
  map heading (steps (catchBlock msg s)) = map heading (steps s).
Proof.
  simpl. rewrite map_map. apply map_ext. intros step. by case_bool_decide.
Qed.

Lemma startRun_heading data s :
  map heading (steps (startRun data s)) = map heading INITIAL_STEPS.
Proof.
  change (steps (startRun data s))
    with (map (updateStep "transcription" active) (smartSteps (platforms data))).
  by rewrite map_updateStep_heading, smartSteps_heading.
Qed.

(** X2: whatever the response (request failure, missing body, any
    chunks, any end), a run ends with the six stages of the initial
    list, in order and with their labels and descriptions, with the
    loading flag cleared and with the requested platforms recorded. *)
Theorem run_keeps_the_stage_list
    (JSON_parse : jsstring → option Event) (data : FormData) (resp : Response)
    (s : State) :
  map heading (steps (handleProcessVideo JSON_parse data resp s))
  = map heading INITIAL_STEPS
  ∧ isLoading (handleProcessVideo JSON_parse data resp s) = false
  ∧ selectedPlatforms (handleProcessVideo JSON_parse data resp s) = platforms data.
Proof.
  pose proof (startRun_heading data s) as Hstart.
  assert (Hsel : ∀ evs s0, selectedPlatforms (stateOf (applyEvents evs s0))
                           = selectedPlatforms s0).
  { induction evs as [|ev evs IH]; intros s0; simpl; [done|].
    destruct ev; simpl; by rewrite ?IH. }
  destruct resp as [msg| |chunks e].
  - split_and!; [|done..]. unfold handleProcessVideo, finallyBlock.
    change (steps (setIsLoading false ?x)) with (steps x).
    by rewrite catchBlock_heading.
  - split_and!; [|done..]. unfold handleProcessVideo, finallyBlock.
    change (steps (setIsLoading false ?x)) with (steps x).
    by rewrite catchBlock_heading.
  - rewrite handleProcessVideo_lines, processLines_applyEvents.
    pose proof (applyEvents_heading
                  (eventsOf JSON_parse (frames newDecoder [] chunks).1)
                  (startRun data s)) as Hh.
    pose proof (Hsel (eventsOf JSON_parse (frames newDecoder [] chunks).1)
                  (startRun data s)) as Hp.
    rewrite Hstart in Hh.
    destruct (applyEvents _ _) as [s'|s']; cbn [stateOf] in Hh, Hp.
    + destruct e as [|msg]; (split_and!; [|done|exact Hp]).
      * change (steps (finallyBlock (markAllCompleted s')))
          with (map (with_status completed) (steps s')).
        rewrite map_map. rewrite <- Hh. by apply map_ext.
      * unfold finallyBlock. change (steps (setIsLoading false ?x)) with (steps x).
        by rewrite catchBlock_heading, Hh.
    + split_and!; [|done|exact Hp]. unfold finallyBlock.
      change (steps (setIsLoading false ?x)) with (steps x). by rewrite Hh.
Qed.

(** ** The results aggregate only grows *)

Lemma putResult_dom k v s :
  dom (default ∅ (result s)) ⊆ dom (default ∅ (result (putResult k v s))).
Proof. simpl. rewrite dom_insert. set_solver. Qed.

Lemma handleEvent_result_dom ev s :
  dom (default ∅ (result s)) ⊆ dom (default ∅ (result (stateOf (handleEvent ev s)))).
Proof.
  destruct ev; simpl; try done; rewrite dom_insert; set_solver.
Qed.

(** X3: events never remove a key from the results aggregate: every
    key present before a sequence of events is present after it. *)
Theorem results_keys_are_never_removed (evs : list Event) (s : State) :
  dom (default ∅ (result s))
  ⊆ dom (default ∅ (result (stateOf (applyEvents evs s)))).
Proof.
  revert s. induction evs as [|ev evs IH]; intros s; simpl; [done|].
  pose proof (handleEvent_result_dom ev s) as Hev.
  destruct (handleEvent ev s) as [s'|s']; simpl in Hev; [|done].
  etrans; [exact Hev|apply IH].
Qed.

(** ** A run that meets no error event *)

Lemma handleEvent_no_error ev s :
  isErrorEvent ev = false →
  ∃ s', handleEvent ev s = Continue s' ∧ error_msg s' = error_msg s.
Proof. destruct ev; intros H; try discriminate; eexists; by split. Qed.

Lemma applyEvents_no_error evs : ∀ s,
  forallb (λ ev, negb (isErrorEvent ev)) evs = true →
  ∃ s', applyEvents evs s = Continue s' ∧ error_msg s' = error_msg s.
Proof.
  induction evs as [|ev evs IH]; intros s Hall; simpl in *; [by eexists|].
  apply andb_true_iff in Hall as [Hev Hall]. apply negb_true_iff in Hev.
  destruct (handleEvent_no_error ev s Hev) as (s1 & -> & H1).
  destruct (IH s1 Hall) as (s2 & -> & H2). exists s2. split; [done|congruence].
Qed.

(** X4: when no line of the stream is an error event and the stream
    ends normally, every stage ends completed (the skipped ones too),
    no error is surfaced, and every stage shows 100. *)
Theorem stream_without_error_event_completes_every_stage
    (JSON_parse : jsstring → option Event) (data : FormData)
    (chunks : list (list Byte.byte)) (s : State) :
  forallb (λ ev, negb (isErrorEvent ev))
    (eventsOf JSON_parse (frames newDecoder [] chunks).1) = true →
  Forall (λ step, status step = completed)
    (steps (handleProcessVideo JSON_parse data (Body chunks Done) s))
  ∧ error_msg (handleProcessVideo JSON_parse data (Body chunks Done) s) = None
  ∧ ∀ sim i, (i < 6)%nat →
      displayProgress (handleProcessVideo JSON_parse data (Body chunks Done) s) sim i
      = Some 100.
Proof.
  intros Hall.
  rewrite handleProcessVideo_lines, processLines_applyEvents.
  destruct (applyEvents_no_error _ (startRun data s) Hall) as (s' & Happ & Herr).
  rewrite Happ.
  assert (Hsteps : steps (finallyBlock (markAllCompleted s'))
                   = map (with_status completed) (steps s')) by reflexivity.
  split_and!; [|exact Herr|].
  - rewrite Hsteps. apply Forall_forall. intros step Hin.
    apply list_elem_of_fmap in Hin as (x & -> & _). reflexivity.
  - intros sim i Hi.
    assert (Hlen : length (steps s') = 6%nat).
    { pose proof (applyEvents_heading
                    (eventsOf JSON_parse (frames newDecoder [] chunks).1)
                    (startRun data s)) as Hh.
      rewrite Happ, startRun_heading in Hh. cbn [stateOf] in Hh.
      apply (f_equal length) in Hh. by rewrite !length_map in Hh. }
    destruct (lookup_lt_is_Some_2 (steps s') i) as [step Hstep]; [lia|].
    erewrite displayProgress_eq; [|rewrite Hsteps, lookup_map, Hstep; reflexivity].
    reflexivity.
Qed.

Lemma stream_without_error_event_completes_every_stage_witness :
  Forall (λ step, status step = completed)
    (steps (handleProcessVideo sampleParse twitterRun (Body chunksA Done) initialState))
  ∧ error_msg (handleProcessVideo sampleParse twitterRun (Body chunksA Done) initialState)
    = None.
Proof.
  assert (H : forallb (λ ev, negb (isErrorEvent ev))
                (eventsOf sampleParse (frames newDecoder [] chunksA).1) = true)
    by (vm_compute; reflexivity).
  destruct (stream_without_error_event_completes_every_stage sampleParse twitterRun
              chunksA initialState H) as (H1 & H2 & _).
  split; [exact H1|exact H2].
Defined.

(** ** A request that fails *)

Lemma statusOf_map (f : PipelineStep → PipelineStep) sts i :
  (∀ step, id (f step) = id step) →
  statusOf (map f sts) i
  = (λ step, status (f step)) <$> find (λ step, bool_decide (id step = i)) sts.
Proof.
  intros Hid. unfold statusOf. induction sts as [|step sts IH]; [done|].
  cbn [map find]. rewrite Hid. by case_bool_decide.
Qed.


(** ** Stop and failure leave no stage active *)

Lemma demote_no_active st (Hst : st ≠ active) sts :
  Forall (λ step, status step ≠ active)
    (map (λ step, if bool_decide (status step = active)
                  then with_status st step else step) sts).
Proof.
  apply Forall_forall. intros x Hx.
  apply list_elem_of_fmap in Hx as (step & -> & _).
  by case_bool_decide.
Qed.

Lemma demote_fixed st sts :
  Forall (λ step, status step ≠ active) sts →
  map (λ step, if bool_decide (status step = active)
               then with_status st step else step) sts = sts.
Proof.
  induction 1 as [|step sts Hstep _ IH]; simpl; [done|].
  by rewrite IH, bool_decide_eq_false_2.
Qed.

(** X6: after a stop, and after a failure, no stage is active; doing
    either twice is the same as doing it once; and on a stage list
    without an active stage neither changes any stage. *)
Theorem stop_and_failure_leave_no_active_stage (msg : string) (s : State) :
  Forall (λ step, status step ≠ active) (steps (handleStopPipeline s))
  ∧ Forall (λ step, status step ≠ active) (steps (catchBlock msg s))
  ∧ handleStopPipeline (handleStopPipeline s) = handleStopPipeline s
  ∧ catchBlock msg (catchBlock msg s) = catchBlock msg s
  ∧ (Forall (λ step, status step ≠ active) (steps s) →
       steps (handleStopPipeline s) = steps s
       ∧ steps (catchBlock msg s) = steps s).
Proof.
  split_and!.
  - by apply demote_no_active.
  - by apply demote_no_active.
  - unfold handleStopPipeline at 1. unfold setSteps at 1.
    rewrite (demote_fixed pending) by (by apply demote_no_active). reflexivity.
  - unfold catchBlock at 1. unfold setSteps at 1.
    rewrite (demote_fixed error) by (by apply demote_no_active). reflexivity.
  - intros Hno. split; by apply demote_fixed.
Qed.

(** ** Progress reports *)

(** X7: a later progress report for a stage replaces the earlier one
    entirely; reports for different stages commute; and a report
    changes neither the stage list nor the results. *)
Theorem later_report_replaces_earlier
    (k k' : string) (p1 p2 : Q) (s : State) :
  handleEvent (EvProgress k p2) (stateOf (handleEvent (EvProgress k p1) s))
  = handleEvent (EvProgress k p2) s
  ∧ (k ≠ k' →
       handleEvent (EvProgress k' p2) (stateOf (handleEvent (EvProgress k p1) s))
       = handleEvent (EvProgress k p1) (stateOf (handleEvent (EvProgress k' p2) s)))
  ∧ steps (stateOf (handleEvent (EvProgress k p1) s)) = steps s
  ∧ result (stateOf (handleEvent (EvProgress k p1) s)) = result s
  ∧ realProgress (stateOf (handleEvent (EvProgress k p1) s)) !! k = Some p1.
Proof.
  split_and!; try reflexivity.
  - simpl. unfold setRealProgress. simpl. by rewrite insert_insert_eq.
  - intros Hk. simpl. unfold setRealProgress. simpl.
    by rewrite insert_insert_ne.
  - simpl. apply lookup_insert_eq.
Qed.

(** ** Lines the loop passes over *)

(** X8: a blank line, and a line that does not parse, has no effect:
    the loop ends in the same outcome as on the lines without it. *)
Theorem blank_and_unparsed_lines_have_no_effect
    (JSON_parse : jsstring → option Event) (before after : list jsstring)
    (line : jsstring) (s : State) :
  isBlank line = true ∨ JSON_parse line = None →
  processLines JSON_parse (before ++ line :: after) s
  = processLines JSON_parse (before ++ after) s.
Proof.
  intros Hskip. rewrite !processLines_app.
  destruct (processLines JSON_parse before s) as [s'|s']; [|done].
  simpl. destruct (isBlank line); [done|].
  destruct Hskip as [?| ->]; done.
Qed.

Lemma blank_and_unparsed_lines_have_no_effect_witness :
  processLines sampleParse
    ([codeUnits (typeLine "transcript")] ++ codeUnits "not json"
       :: [codeUnits (dataLine "research")]) twitterStart
  = processLines sampleParse
      ([codeUnits (typeLine "transcript")] ++ [codeUnits (dataLine "research")])
      twitterStart.
Proof.
  apply blank_and_unparsed_lines_have_no_effect.
  right. vm_compute. reflexivity.
Defined.

(** ** How many lines a stream holds *)

Lemma filter_LF_absent (l : jsstring) : LF ∉ l → filter (λ c, c = LF) l = [].
Proof.
  induction l as [|c l IH]; [done|]. intros Hn.
  apply not_elem_of_cons in Hn as [Hc Hl].
  rewrite filter_cons_False by congruence. by apply IH.
Qed.

Lemma filter_LF_lines (lines : list jsstring) :
  Forall (λ l, (LF ∉ l)) lines →
  length (filter (λ c, c = LF) (flat_map (λ l, l ++ [LF]) lines)) = length lines.
Proof.
  induction 1 as [|l lines Hl _ IH]; [done|].
  cbn [flat_map]. rewrite !filter_app, !length_app, IH.
  rewrite (filter_LF_absent l Hl). reflexivity.
Qed.



(** ** The ramp of the page *)

Lemma Math_round_inject z : Math_round (inject_Z z) = z.
Proof.
  unfold Math_round, Qfloor, inject_Z, Qplus. simpl.
  symmetry. apply Z.div_unique with (r := 1); lia.
Qed.

Lemma rampTick_ticking o i r : ticking (rampTick o i r) = ticking r.
Proof. unfold rampTick. by case_bool_decide. Qed.

Lemma home_tick_value z :
  z ≠ 0 →
  Math_round (Math_min (inject_Z z + incrementPerMs homeOptions * intervalMs homeOptions)
                (maxProgress homeOptions))
  = Z.min (z + 5) 90.
Proof.
  intros Hz. rewrite <- (Math_round_inject (Z.min (z + 5) 90)).
  apply Math_round_eq. unfold Math_min. simpl.
  assert (Hsum : (inject_Z z + 0.05 * 100 == inject_Z (z + 5))%Q).
  { rewrite inject_Z_plus. apply Qplus_inj_l. reflexivity. }
  destruct (Z.le_gt_cases (z + 5) 90) as [Hle|Hgt].
  - rewrite Z.min_l by done. rewrite Q.min_l; [done|].
    rewrite Hsum. change 90%Q with (inject_Z 90). by rewrite <- Zle_Qle.
  - rewrite Z.min_r by lia. rewrite Q.min_r; [done|].
    rewrite Hsum. change 90%Q with (inject_Z 90). rewrite <- Zle_Qle. lia.
Qed.

(** X10: with the options of the page, the ramp of a stage whose
    timer runs stands at min(5 + 5n, 90) after n firings, starting from
    the 5 the effect sets. *)
Theorem home_ramp_after_ticks (i : string) (r : Ramp) (n : nat) :
  i ∈ ticking r →
  progressMap r !! i = Some 5%Q →
  progressMap (Nat.iter n (rampTick homeOptions i) r) !! i
  = Some (inject_Z (Z.min (5 + 5 * Z.of_nat n) 90)).
Proof.
  intros Hi H5. induction n as [|n IH]; [done|].
  rewrite Nat.iter_succ. set (r' := Nat.iter n (rampTick homeOptions i) r) in *.
  assert (Hi' : i ∈ ticking r').
  { subst r'. clear IH. induction n as [|n IHn]; [done|].
    by rewrite Nat.iter_succ, rampTick_ticking. }
  unfold rampTick. rewrite bool_decide_eq_true_2 by done.
  cbn [progressMap setProgress]. rewrite lookup_insert_eq. do 2 f_equal.
  unfold get_or. rewrite IH.
  assert (Hnz : Z.min (5 + 5 * Z.of_nat n) 90 ≠ 0) by lia.
  destruct (Qeq_bool (inject_Z (Z.min (5 + 5 * Z.of_nat n) 90)) 0) eqn:E.
  { apply Qeq_bool_eq in E. change 0%Q with (inject_Z 0) in E.
    apply (proj1 (inject_Z_injective _ _)) in E. lia. }
  rewrite home_tick_value by done. lia.
Qed.

Lemma home_ramp_after_ticks_witness :
  progressMap
    (Nat.iter 20 (rampTick homeOptions "generation")
       (rampEffect (steps generationActive) newRamp)) !! "generation"
  = Some 90%Q.
Proof.
  assert (Hi : "generation" ∈ ticking (rampEffect (steps generationActive) newRamp)).
  { apply (bool_decide_unpack _). vm_compute. exact I. }
  assert (H5 : progressMap (rampEffect (steps generationActive) newRamp) !! "generation"
               = Some 5%Q) by (vm_compute; reflexivity).
  exact (home_ramp_after_ticks "generation" _ 20 Hi H5).
Defined.

(** ** What the effect does to a stage's timer *)

Lemma clearTimer_ticking i r k :
  k ≠ i → (k ∈ ticking (clearTimer i r) ↔ k ∈ ticking r).
Proof. intros Hk. unfold clearTimer. case_bool_decide; simpl; set_solver. Qed.

Lemma effectStep_ticking_other shown r step k :
  id step ≠ k →
  (k ∈ ticking (effectStep shown r step) ↔ k ∈ ticking r).
Proof.
  intros Hk. unfold effectStep.
  destruct (bool_decide (status step = active) &&
            negb (bool_decide (id step ∈ intervalsRef r))); simpl; [set_solver|].
  repeat case_bool_decide; try destruct (Qeq_bool _ _); simpl;
    rewrite ?clearTimer_ticking by done; done.
Qed.

Lemma effectStep_active_with_handle shown r step :
  status step = active → id step ∈ intervalsRef r → effectStep shown r step = r.
Proof.
  intros Hst Hin. unfold effectStep. rewrite Hst.
  rewrite (bool_decide_eq_true_2 _ Hin). reflexivity.
Qed.

Lemma rampEffect_stalled shown k sts : ∀ r,
  (∀ step, step ∈ sts → id step = k → status step = active) →
  k ∈ intervalsRef r → k ∉ ticking r →
  (k ∉ ticking (fold_left (effectStep shown) sts r))
  ∧ k ∈ intervalsRef (fold_left (effectStep shown) sts r)
  ∧ progressMap (fold_left (effectStep shown) sts r) !! k = progressMap r !! k.
Proof.
  induction sts as [|step sts IH]; intros r Hact Hin Hnt; [done|].
  cbn [fold_left].
  assert (Hact' : ∀ x, x ∈ sts → id x = k → status x = active).
  { intros x Hx. apply Hact. by right. }
  destruct (decide (id step = k)) as [Hk|Hk].
  - rewrite effectStep_active_with_handle.
    + by apply IH.
    + apply Hact; [by left|done].
    + by rewrite Hk.
  - destruct (effectStep_other shown r step k Hk) as [Hp Hi].
    destruct (IH (effectStep shown r step) Hact') as (H1 & H2 & H3).
    + by apply Hi.
    + by rewrite effectStep_ticking_other.
    + split_and!; [done..|]. by rewrite H3.
Qed.

(** X11: once a stage has a timer handle stored, the cleanup of the
    effect followed by the effect leaves a still active stage without
    a running timer and with its ramp value unchanged, so a firing for
    it changes nothing: the effect does not restart a cleared timer. *)
Theorem timer_is_not_restarted_after_cleanup
    (o : Options) (sts : list PipelineStep) (r : Ramp) (k : string) :
  k ∈ intervalsRef r →
  (∀ step, step ∈ sts → id step = k → status step = active) →
  (k ∉ ticking (rampEffect sts (rampCleanup r)))
  ∧ progressMap (rampEffect sts (rampCleanup r)) !! k = progressMap r !! k
  ∧ rampTick o k (rampEffect sts (rampCleanup r)) = rampEffect sts (rampCleanup r).
Proof.
  intros Hin Hact.
  destruct (rampEffect_stalled (progressMap (rampCleanup r)) k sts (rampCleanup r))
    as (H1 & H2 & H3); [done|done| |].
  { simpl. set_solver. }
  split_and!; [done|done|].
  unfold rampTick. by rewrite bool_decide_eq_false_2.
Qed.

Lemma timer_is_not_restarted_after_cleanup_witness :
  progressMap
    (rampTick homeOptions "generation"
       (rampEffect (steps generationActive) (rampCleanup generationRamp)))
    !! "generation"
  = progressMap generationRamp !! "generation".
Proof.
  assert (Hin : "generation" ∈ intervalsRef generationRamp).
  { apply (bool_decide_unpack _). vm_compute. exact I. }
  assert (Hact : ∀ step, step ∈ steps generationActive → id step = "generation"
                         → status step = active).
  { assert (Hall : Forall (λ step, id step = "generation" → status step = active)
                      (steps generationActive)).
    { apply (bool_decide_unpack _). vm_compute. exact I. }
    intros step Hstep. exact (proj1 (Forall_forall _ _) Hall step Hstep). }
  destruct (timer_is_not_restarted_after_cleanup homeOptions (steps generationActive)
              generationRamp "generation" Hin Hact) as (_ & H2 & H3).
  rewrite H3. exact H2.
Defined.

Lemma rampEffect_ticking_other shown k sts : ∀ r,
  (∀ step, step ∈ sts → id step ≠ k) →
  (k ∈ ticking (fold_left (effectStep shown) sts r) ↔ k ∈ ticking r).
Proof.
  induction sts as [|step sts IH]; intros r Hk; simpl; [done|].
  rewrite IH by (intros x Hx; apply Hk; by right).
  apply effectStep_ticking_other. apply Hk. by left.
Qed.

Lemma NoDup_ids_cons (x : PipelineStep) sts :
  NoDup (map id (x :: sts)) →
  (∀ y, y ∈ sts → id y ≠ id x) ∧ NoDup (map id sts).
Proof.
  simpl. intros Hnd. apply NoDup_cons in Hnd as [Hx Hnd]. split; [|done].
  intros y Hy Heq. apply Hx. rewrite <- Heq.
  apply list_elem_of_In, in_map. by apply list_elem_of_In.
Qed.

Lemma rampEffect_active shown k sts : ∀ r step,
  step ∈ sts → id step = k → status step = active →
  NoDup (map id sts) → k ∉ intervalsRef r →
  progressMap (fold_left (effectStep shown) sts r) !! k = Some 5%Q
  ∧ k ∈ ticking (fold_left (effectStep shown) sts r).
Proof.
  induction sts as [|x sts IH]; intros r step Hin Hid Hst Hnd Hno.
  { by apply elem_of_nil in Hin. }
  apply NoDup_ids_cons in Hnd as [Hx Hnd]. cbn [fold_left].
  apply elem_of_cons in Hin as [Heq|Hin].
  - subst x k.
    destruct (rampEffect_other shown (id step) sts (effectStep shown r step) Hx)
      as [H1 _].
    rewrite H1, (rampEffect_ticking_other shown (id step) sts _ Hx).
    unfold effectStep. rewrite Hst, (bool_decide_eq_false_2 _ Hno). simpl.
    rewrite lookup_insert_eq. split; [done|set_solver].
  - assert (Hxk : id x ≠ k).
    { intros Heq. apply (Hx step Hin). congruence. }
    apply (IH _ step); try done.
    destruct (effectStep_other shown r x k Hxk) as [_ H2]. by rewrite H2.
Qed.

Lemma rampEffect_completed shown k sts : ∀ r step,
  step ∈ sts → id step = k → status step = completed →
  NoDup (map id sts) →
  progressMap r !! k = shown !! k →
  (get_or 0 (progressMap (fold_left (effectStep shown) sts r)) k == 100)%Q
  ∧ k ∉ intervalsRef (fold_left (effectStep shown) sts r).
Proof.
  induction sts as [|x sts IH]; intros r step Hin Hid Hst Hnd Hshown.
  { by apply elem_of_nil in Hin. }
  apply NoDup_ids_cons in Hnd as [Hx Hnd]. cbn [fold_left].
  apply elem_of_cons in Hin as [Heq|Hin].
  - subst x k.
    destruct (rampEffect_other shown (id step) sts (effectStep shown r step) Hx)
      as [H1 H2].
    unfold get_or. rewrite H1, H2. clear H1 H2.
    unfold effectStep. rewrite Hst. simpl.
    destruct (Qeq_bool (get_or 0 shown (id step)) 100) eqn:E; simpl.
    + rewrite clearTimer_progressMap, clearTimer_intervals. split; [|naive_solver].
      apply Qeq_bool_eq in E. unfold get_or in E. rewrite Hshown.
      destruct (shown !! id step) as [v|]; [|by apply Qeq_bool_neq in E].
      destruct (Qeq_bool v 0); [by apply Qeq_bool_neq in E|done].
    + rewrite clearTimer_intervals, lookup_insert_eq. split; [|naive_solver].
      reflexivity.
  - assert (Hxk : id x ≠ k).
    { intros Heq. apply (Hx step Hin). congruence. }
    apply (IH _ step); try done.
    destruct (effectStep_other shown r x k Hxk) as [H1 _]. by rewrite H1.
Qed.

(** X12: with distinct stage ids, the effect sets the ramp of an
    active stage that has no timer handle to 5 and starts its timer,
    and leaves a completed stage at 100 with no handle stored. *)
Theorem effect_starts_and_finishes_ramps
    (sts : list PipelineStep) (r : Ramp) (step : PipelineStep) :
  step ∈ sts →
  NoDup (map id sts) →
  (status step = active → id step ∉ intervalsRef r →
     progressMap (rampEffect sts r) !! id step = Some 5%Q
     ∧ id step ∈ ticking (rampEffect sts r))
  ∧ (status step = completed →
       (get_or 0 (progressMap (rampEffect sts r)) (id step) == 100)%Q
       ∧ id step ∉ intervalsRef (rampEffect sts r)).
Proof.
  intros Hin Hnd. split.
  - intros Hst Hno. by apply (rampEffect_active _ _ _ _ step).
  - intros Hst. by apply (rampEffect_completed _ _ _ _ step).
Qed.

Lemma effect_starts_and_finishes_ramps_witness :
  progressMap (rampEffect (steps generationActive) newRamp) !! "generation" = Some 5%Q
  ∧ "generation" ∈ ticking (rampEffect (steps generationActive) newRamp).
Proof.
  assert (Hin : mkStep "generation" "Content Hub" "Social Assets" active None
                ∈ steps generationActive).
  { apply list_elem_of_lookup. exists 2%nat. vm_compute. reflexivity. }
  assert (Hnd : NoDup (map id (steps generationActive))).
  { apply (bool_decide_unpack _). vm_compute. exact I. }
  destruct (effect_starts_and_finishes_ramps (steps generationActive) newRamp _ Hin Hnd)
    as [H _].
  apply H; [reflexivity|]. apply not_elem_of_empty.
Defined.


(** * The other components *)

(** ** The log console *)

Lemma slice_last_all {A} n (l : list A) : (length l ≤ n)%nat → slice_last n l = l.
Proof.
  intros H. unfold slice_last. by replace (length l - n)%nat with 0%nat by lia.
Qed.

Lemma slice_last_length {A} n (l : list A) :
  length (slice_last n l) = Nat.min n (length l).
Proof. unfold slice_last. rewrite length_drop. lia. Qed.

Lemma slice_last_snoc {A} n (l : list A) x :
  slice_last n l ++ [x] = slice_last (S n) (l ++ [x]).
Proof.
  unfold slice_last. rewrite length_app. simpl.
  replace (length l + 1 - S n)%nat with (length l - n)%nat by lia.
  rewrite drop_app_le by lia. reflexivity.
Qed.

Lemma slice_last_app {A} n (a b : list A) :
  slice_last n (slice_last n a ++ b) = slice_last n (a ++ b).
Proof.
  unfold slice_last.
  rewrite !drop_app, !drop_drop, !length_app, !length_drop.
  f_equal; f_equal; lia.
Qed.

Lemma addLog_slice message logs :
  addLog message logs = slice_last 101 (logs ++ [message]).
Proof. apply slice_last_snoc. Qed.

(** X14: starting from at most 101 lines, after any messages the
    console holds the last 101 of the lines and messages, in order,
    and never more than 101. *)
Theorem console_keeps_the_last_messages (messages logs : list string) :
  (length logs ≤ 101)%nat →
  fold_left (λ prev message, addLog message prev) messages logs
  = slice_last 101 (logs ++ messages)
  ∧ (length (fold_left (λ prev message, addLog message prev) messages logs)
     ≤ 101)%nat.
Proof.
  revert logs. induction messages as [|m messages IH]; intros logs Hlen.
  - simpl. rewrite app_nil_r, slice_last_all by done. done.
  - cbn [fold_left].
    destruct (IH (addLog m logs)) as [Heq Hle].
    { rewrite addLog_slice, slice_last_length. lia. }
    split; [|done].
    rewrite Heq, addLog_slice, slice_last_app, <- app_assoc. reflexivity.
Qed.

Lemma console_keeps_the_last_messages_witness :
  fold_left (λ prev message, addLog message prev) (replicate 150 "tick") ["start"]
  = replicate 101 "tick".
Proof.
  assert (H : (length ["start"] ≤ 101)%nat) by (simpl; lia).
  destruct (console_keeps_the_last_messages (replicate 150 "tick") ["start"] H)
    as [Heq _].
  rewrite Heq. vm_compute. reflexivity.
Defined.

(** ** The platform selection *)

Lemma elem_of_filter_ne (i j : string) (l : list string) :
  j ∈ List.filter (λ p, negb (bool_decide (p = i))) l ↔ j ∈ l ∧ j ≠ i.
Proof.
  rewrite !list_elem_of_In, filter_In, negb_true_iff, bool_decide_eq_false.
  reflexivity.
Qed.

Lemma filter_ne_absent (i : string) (l : list string) :
  i ∉ l → List.filter (λ p, negb (bool_decide (p = i))) l = l.
Proof.
  induction l as [|x l IH]; [done|]. intros Hn.
  apply not_elem_of_cons in Hn as [Hx Hl]. simpl.
  rewrite bool_decide_eq_false_2 by congruence. simpl. by rewrite IH.
Qed.

Lemma togglePlatform_in i prev :
  i ∈ prev →
  togglePlatform i prev = List.filter (λ p, negb (bool_decide (p = i))) prev.
Proof. intros H. unfold togglePlatform, includes. by rewrite bool_decide_eq_true_2. Qed.

Lemma togglePlatform_out i prev : i ∉ prev → togglePlatform i prev = prev ++ [i].
Proof. intros H. unfold togglePlatform, includes. by rewrite bool_decide_eq_false_2. Qed.

(** X15: toggling a platform flips its membership in the selection
    and no other; it keeps a selection free of duplicates so; and
    toggling an unselected platform twice gives the selection back. *)
Theorem toggle_flips_one_platform (i : string) (prev : list string) :
  (i ∈ togglePlatform i prev ↔ i ∉ prev)
  ∧ (∀ j, j ≠ i → (j ∈ togglePlatform i prev ↔ j ∈ prev))
  ∧ (NoDup prev → NoDup (togglePlatform i prev))
  ∧ (i ∉ prev → togglePlatform i (togglePlatform i prev) = prev).
Proof.
  destruct (decide (i ∈ prev)) as [Hin|Hout].
  - rewrite (togglePlatform_in i prev Hin). split_and!.
    + rewrite elem_of_filter_ne. naive_solver.
    + intros j Hj. rewrite elem_of_filter_ne. naive_solver.
    + intros Hnd. apply NoDup_ListNoDup, List.NoDup_filter, NoDup_ListNoDup, Hnd.
    + done.
  - rewrite (togglePlatform_out i prev Hout). split_and!.
    + rewrite elem_of_app, list_elem_of_singleton. naive_solver.
    + intros j Hj. rewrite elem_of_app, list_elem_of_singleton. naive_solver.
    + intros Hnd. apply NoDup_app. split_and!; [done| |apply NoDup_singleton].
      intros x Hx Hx'. apply list_elem_of_singleton in Hx'. by subst.
    + intros _. rewrite togglePlatform_in
        by (rewrite elem_of_app, list_elem_of_singleton; by right).
      rewrite List.filter_app, filter_ne_absent by done. simpl.
      rewrite bool_decide_eq_true_2 by done. simpl. apply app_nil_r.
Qed.

(** ** The carousel preview *)

(** X16: for an index within the n images, the next and previous
    indices stay within them, each undoes the other, the last image is
    followed by the first and the first preceded by the last. *)
Theorem slides_wrap_around (n i : Z) :
  0 ≤ i < n →
  0 ≤ nextSlide n i < n
  ∧ 0 ≤ prevSlide n i < n
  ∧ prevSlide n (nextSlide n i) = i
  ∧ nextSlide n (prevSlide n i) = i
  ∧ nextSlide n (n - 1) = 0
  ∧ prevSlide n 0 = n - 1.
Proof.
  intros Hi.
  assert (Hnext : ∀ j, 0 ≤ j < n → nextSlide n j = if decide (j + 1 = n) then 0 else j + 1).
  { intros j Hj. unfold nextSlide. rewrite Z.rem_mod_nonneg by lia.
    case_decide as Hc.
    - rewrite Hc. apply Z_mod_same_full.
    - apply Z.mod_small. lia. }
  assert (Hprev : ∀ j, 0 ≤ j < n → prevSlide n j = if decide (j = 0) then n - 1 else j - 1).
  { intros j Hj. unfold prevSlide. rewrite Z.rem_mod_nonneg by lia.
    case_decide as Hc.
    - subst j. replace (0 - 1 + n) with (n - 1) by lia. apply Z.mod_small. lia.
    - replace (j - 1 + n) with (j - 1 + 1 * n) by lia.
      rewrite Z_mod_plus_full. apply Z.mod_small. lia. }
  split; [|split; [|split; [|split; [|split]]]].
  - rewrite Hnext by done. case_decide; lia.
  - rewrite Hprev by done. case_decide; lia.
  - rewrite (Hnext i Hi). destruct (decide (i + 1 = n)).
    + rewrite Hprev by lia. case_decide; lia.
    + rewrite Hprev by lia. case_decide; lia.
  - rewrite (Hprev i Hi). destruct (decide (i = 0)).
    + rewrite Hnext by lia. case_decide; lia.
    + rewrite Hnext by lia. case_decide; lia.
  - rewrite Hnext by lia. case_decide; lia.
  - rewrite Hprev by lia. case_decide; lia.
Qed.

Lemma slides_wrap_around_witness :
  prevSlide 5 (nextSlide 5 4) = 4 ∧ nextSlide 5 4 = 0.
Proof.
  assert (H : 0 ≤ 4 < 5) by lia.
  destruct (slides_wrap_around 5 4 H) as (_ & _ & H1 & _ & H2 & _).
  split; [exact H1|exact H2].
Defined.

(** ** The streaming request *)

Lemma thrownMessage_nonempty message : thrownMessage message ≠ "".
Proof. unfold thrownMessage. by case_bool_decide. Qed.

(** X17: when the request is rejected or answered with a status
    outside 200..299, the run surfaces a message that is not empty (for
    a bad status, the text with that status) and marks the
    transcription stage error. *)
Theorem failed_request_surfaces_a_message
    (JSON_parse : jsstring → option Event) (data : FormData) (s : State)
    (o : FetchOutcome) :
  (∀ status body, o = Resolves status body → ok status = false) →
  ∃ msg,
    error_msg (handleProcessVideo JSON_parse data (processVideoStream o) s) = Some msg
    ∧ msg ≠ ""
    ∧ (∀ status body, o = Resolves status body →
         msg = "HTTP error! status: " +:+ pretty status)
    ∧ statusOf (steps (handleProcessVideo JSON_parse data (processVideoStream o) s))
        "transcription" = Some error.
Proof.
  intros Hfail. destruct o as [message|status body].
  - exists (thrownMessage message). split_and!; try reflexivity.
    + apply thrownMessage_nonempty.
    + intros ? ? [=].
  - simpl. rewrite (Hfail status body eq_refl).
    exists (thrownMessage ("HTTP error! status: " +:+ pretty status)).
    split_and!; try reflexivity.
    + apply thrownMessage_nonempty.
    + intros ? ? [= <- <-]. reflexivity.
Qed.

Lemma failed_request_surfaces_a_message_witness :
  error_msg (handleProcessVideo sampleParse twitterRun
               (processVideoStream (Resolves 500 None)) initialState)
  = Some "HTTP error! status: 500".
Proof.
  destruct (failed_request_surfaces_a_message sampleParse twitterRun initialState
              (Resolves 500 None)) as (msg & Hmsg & _ & Hhttp & _).
  - intros status body [= <- <-]. vm_compute. reflexivity.
  - rewrite Hmsg. f_equal. rewrite (Hhttp 500%N None eq_refl).
    vm_compute. reflexivity.
Defined.

(** ** The sidebar entries *)

Lemma filter_by_sid (g : string → bool) (l : list SidebarStep) :
  map sid (List.filter (λ e, g (sid e)) l) = List.filter g (map sid l).
Proof.
  induction l as [|e l IH]; [done|]. simpl.
  destruct (g (sid e)); simpl; by rewrite IH.
Qed.

Lemma sidebarSteps_ids has loading simulated selected :
  map sid (sidebarSteps has loading simulated selected)
  = List.filter
      (λ i, sidebarShown selected (mkSidebar i "" pending 0))
      ["analysis"; "research"; "linkedin"; "twitter"; "blog"; "newsletter";
       "carousel"; "thumbnails"; "audio"].
Proof.
  unfold sidebarSteps.
  rewrite (filter_by_sid (λ i, sidebarShown selected (mkSidebar i "" pending 0))).
  reflexivity.
Qed.

Lemma length_test_spec (selected : list string) :
  negb (0 <? Z.of_nat (length selected)) = true ↔ selected = [].
Proof.
  rewrite negb_true_iff, Z.ltb_ge. destruct selected; simpl; [done|].
  split; [lia|done].
Qed.

Lemma hidden_spec (i x y : string) selected :
  bool_decide (i = x) && negb (includes selected y) = false ↔ (i = x → y ∈ selected).
Proof.
  unfold includes. repeat case_bool_decide; simpl; naive_solver.
Qed.

Ltac hidden_true :=
  split; [discriminate|];
  intros [?|[?|?]]; [done|done|destruct_and?; done].

Lemma sidebarShown_spec selected e :
  sidebarShown selected e = true ↔
    sid e ∈ ["analysis"; "research"] ∨ selected = []
    ∨ ((sid e = "linkedin" → "linkedin" ∈ selected)
       ∧ (sid e = "twitter" → "twitter" ∈ selected)
       ∧ (sid e = "blog" → "blog" ∈ selected)
       ∧ (sid e = "newsletter" → "newsletter" ∈ selected)
       ∧ (sid e = "carousel" → "visuals" ∈ selected)
       ∧ (sid e = "thumbnails" → "visuals" ∈ selected)
       ∧ (sid e = "audio" → "audio" ∈ selected)).
Proof.
  unfold sidebarShown.
  destruct (includes ["analysis"; "research"] (sid e)) eqn:E0.
  { apply includes_spec in E0. naive_solver. }
  assert (H0 : sid e ∉ ["analysis"; "research"]).
  { intros H. apply includes_spec in H. congruence. }
  destruct (negb (0 <? Z.of_nat (length selected))) eqn:E1.
  { apply length_test_spec in E1. naive_solver. }
  assert (H1 : selected ≠ []).
  { intros H. apply length_test_spec in H. congruence. }
  rewrite <- !hidden_spec.
  destruct (bool_decide (sid e = "linkedin") && _); [hidden_true|].
  destruct (bool_decide (sid e = "twitter") && _); [hidden_true|].
  destruct (bool_decide (sid e = "blog") && _); [hidden_true|].
  destruct (bool_decide (sid e = "newsletter") && _); [hidden_true|].
  destruct (bool_decide (sid e = "carousel") && _); [hidden_true|].
  destruct (bool_decide (sid e = "thumbnails") && _); [hidden_true|].
  destruct (bool_decide (sid e = "audio") && _); [hidden_true|].
  split; [|done]. intros _. right. right. by repeat split.
Qed.

(** X18: the sidebar always lists analysis and research; it lists
    linkedin, twitter, blog, newsletter and audio when the selection
    is empty or contains them, and carousel and thumbnails when the
    selection is empty or contains visuals; it lists nothing else. *)
Theorem sidebar_lists_selected_outputs
    (has : string → bool) (loading : bool) (simulated : gmap string Q)
    (selected : list string) (i : string) :
  i ∈ map sid (sidebarSteps has loading simulated selected) ↔
    i = "analysis" ∨ i = "research"
    ∨ (i ∈ ["linkedin"; "twitter"; "blog"; "newsletter"; "audio"]
       ∧ (selected = [] ∨ i ∈ selected))
    ∨ (i ∈ ["carousel"; "thumbnails"] ∧ (selected = [] ∨ "visuals" ∈ selected)).
Proof.
  rewrite sidebarSteps_ids, list_elem_of_In, filter_In, <- list_elem_of_In.
  rewrite sidebarShown_spec. cbn [sid].
  rewrite !elem_of_cons, !elem_of_nil.
  split.
  - intros [Hi Hshown].
    destruct Hi as [->|[->|[->|[->|[->|[->|[->|[->|[->|[]]]]]]]]]];
      destruct Hshown as [Hs|[Hs|Hs]]; try (repeat (destruct Hs as [Hs|Hs]; try discriminate; try done));
      naive_solver.
  - intros H. naive_solver.
Qed.

Lemma get_or_nonzero d (m : gmap string Q) k :
  ¬ (d == 0)%Q → ¬ (get_or d m k == 0)%Q.
Proof.
  intros Hd. unfold get_or. destruct (m !! k) as [v|]; [|done].
  destruct (Qeq_bool v 0) eqn:E; [done|]. by apply Qeq_bool_neq.
Qed.

Lemma sidebarEntry_coupled i lbl own prev sim :
  ¬ (sim == 0)%Q →
  (sstatus (sidebarEntry i lbl own prev sim) = completed
   ∧ sprogress (sidebarEntry i lbl own prev sim) = 100%Q)
  ∨ (sstatus (sidebarEntry i lbl own prev sim) = active
     ∧ ¬ (sprogress (sidebarEntry i lbl own prev sim) == 0)%Q)
  ∨ (sstatus (sidebarEntry i lbl own prev sim) = pending
     ∧ sprogress (sidebarEntry i lbl own prev sim) = 0%Q).
Proof. intros Hsim. destruct own, prev; simpl; auto. Qed.



(** * The decoder and the line feeds *)

Lemma land_low_bits b k : 0 ≤ k → Z.land b (Z.ones k) = b mod 2 ^ k.
Proof. intros Hk. by apply Z.land_ones. Qed.

Lemma continuation_value cp b :
  Z.lor (Z.shiftl cp 6) (Z.land b 63) = cp * 64 + b mod 64.
Proof.
  change 63 with (Z.ones 6). rewrite Z.land_ones by lia.
  rewrite Z.shiftl_mul_pow2 by lia. change (2 ^ 6) with 64.
  pose proof (Z.add_lor_land (cp * 64) (b mod 64)) as Hadd.
  assert (Hland : Z.land (cp * 64) (b mod 64) = 0).
  { apply Z.bits_inj'. intros n Hn. rewrite Z.land_spec, Z.bits_0.
    destruct (Z.lt_ge_cases n 6) as [Hlt|Hge].
    - change 64 with (2 ^ 6). rewrite Z.mul_pow2_bits_low by lia. reflexivity.
    - change 64 with (2 ^ 6) at 2. rewrite Z.mod_pow2_bits_high by lia.
      apply andb_false_r. }
  rewrite Hland in Hadd. lia.
Qed.

Lemma countLF_app a b : countLF (a ++ b) = (countLF a + countLF b)%nat.
Proof. unfold countLF. by rewrite filter_app, length_app. Qed.

Lemma countLF_cons c t :
  countLF (c :: t) = ((if bool_decide (c = LF) then 1 else 0) + countLF t)%nat.
Proof.
  unfold countLF. case_bool_decide.
  - by rewrite filter_cons_True.
  - by rewrite filter_cons_False.
Qed.

Lemma utf16_countLF cp : 0 ≤ cp → countLF (utf16 cp) = countLF [cp].
Proof.
  intros Hcp. unfold utf16. destruct (cp <? 65536) eqn:E; [done|].
  apply Z.ltb_ge in E.
  pose proof (Z.shiftr_nonneg (cp - 65536) 10) as H1.
  pose proof (Z.land_nonneg (cp - 65536) 1023) as H2.
  rewrite !countLF_cons. unfold LF.
  rewrite !bool_decide_eq_false_2 by lia. reflexivity.
Qed.

Lemma flat_map_utf16_countLF cps :
  Forall (λ cp, 0 ≤ cp) cps → countLF (flat_map utf16 cps) = countLF cps.
Proof.
  induction 1 as [|cp cps Hcp _ IH]; [done|].
  cbn [flat_map]. rewrite countLF_app, utf16_countLF, IH by done.
  rewrite !countLF_cons. change (countLF []) with 0%nat. lia.
Qed.

Lemma skipBOMs_spec cps : ∀ d,
  countLF (skipBOMs d cps).2 = countLF cps
  ∧ (Forall (λ cp, 0 ≤ cp) cps → Forall (λ cp, 0 ≤ cp) (skipBOMs d cps).2)
  ∧ (decoderOk d → decoderOk (skipBOMs d cps).1).
Proof.
  induction cps as [|cp cps IH]; intros d; [done|].
  cbn [skipBOMs].
  destruct (skipBOM d cp) as [d1 o1] eqn:E1.
  specialize (IH d1). destruct (skipBOMs d1 cps) as [d2 o2]. cbn [fst snd] in *.
  destruct IH as (IH1 & IH2 & IH3).
  unfold skipBOM in E1.
  destruct (bom_seen d).
  - injection E1 as <- <-. split_and!.
    + cbn [app]. by rewrite !countLF_cons, IH1.
    + intros Hall. apply Forall_cons in Hall as [Hcp Hall].
      apply Forall_cons. split; [done|by apply IH2].
    + done.
  - injection E1 as <- <-. split_and!.
    + destruct (cp =? 65279) eqn:E.
      * apply Z.eqb_eq in E. subst cp. cbn [app]. by rewrite countLF_cons, IH1.
      * cbn [app]. by rewrite !countLF_cons, IH1.
    + intros Hall. apply Forall_cons in Hall as [Hcp Hall].
      destruct (cp =? 65279); cbn [app]; [by apply IH2|].
      apply Forall_cons. split; [done|by apply IH2].
    + intros Hok. apply IH3. exact Hok.
Qed.

Lemma mod_offset b m k : 0 < m → 0 ≤ b - k * m < m → b mod m = b - k * m.
Proof. intros Hm Hb. symmetry. apply Z.mod_unique with (q := k); lia. Qed.

Lemma countLF_single c : countLF [c] = if bool_decide (c = 10) then 1%nat else 0%nat.
Proof. rewrite countLF_cons. unfold LF. by case_bool_decide. Qed.

Lemma leadByte_spec d b :
  bytes_needed d = 0 → 0 ≤ b ≤ 255 →
  decoderOk (leadByte d b).1
  ∧ Forall (λ cp, 0 ≤ cp) (leadByte d b).2
  ∧ countLF (leadByte d b).2 = if bool_decide (b = 10) then 1%nat else 0%nat.
Proof.
  intros Hd Hb. unfold leadByte.
  destruct (b <=? 127) eqn:E1.
  { cbn [fst snd]. split_and!; [by left| |apply countLF_single].
    apply Forall_cons. split; [lia|done]. }
  apply Z.leb_gt in E1.
  assert (Hne : bool_decide (b = 10) = false) by (apply bool_decide_eq_false; lia).
  rewrite Hne.
  destruct ((194 <=? b) && (b <=? 223)) eqn:E2.
  { apply andb_true_iff in E2 as [H1 H2]. apply Z.leb_le in H1, H2.
    cbn [fst snd]. split_and!; [|done..]. right. cbn.
    change 31 with (Z.ones 5). rewrite Z.land_ones by lia.
    rewrite (mod_offset b (2 ^ 5) 6) by lia. lia. }
  destruct ((224 <=? b) && (b <=? 239)) eqn:E3.
  { apply andb_true_iff in E3 as [H1 H2]. apply Z.leb_le in H1, H2.
    cbn [fst snd]. split_and!; [|done..]. right. cbn.
    change 15 with (Z.ones 4). rewrite Z.land_ones by lia.
    rewrite (mod_offset b (2 ^ 4) 14) by lia.
    destruct (b =? 224) eqn:Eb, (b =? 237) eqn:Eb'; lia. }
  destruct ((240 <=? b) && (b <=? 244)) eqn:E4.
  { apply andb_true_iff in E4 as [H1 H2]. apply Z.leb_le in H1, H2.
    cbn [fst snd]. split_and!; [|done..]. right. cbn.
    change 7 with (Z.ones 3). rewrite Z.land_ones by lia.
    rewrite (mod_offset b (2 ^ 3) 30) by lia.
    destruct (b =? 240) eqn:Eb, (b =? 244) eqn:Eb'; lia. }
  cbn [fst snd]. split_and!; [by left| |done].
  apply Forall_cons. split; [lia|done].
Qed.

Lemma decodeByte_spec d b :
  decoderOk d → 0 ≤ b ≤ 255 →
  decoderOk (decodeByte d b).1
  ∧ Forall (λ cp, 0 ≤ cp) (decodeByte d b).2
  ∧ countLF (decodeByte d b).2 = if bool_decide (b = 10) then 1%nat else 0%nat.
Proof.
  intros Hok Hb. unfold decodeByte.
  destruct (bytes_needed d =? 0) eqn:E0.
  { apply Z.eqb_eq in E0. by apply leadByte_spec. }
  apply Z.eqb_neq in E0. destruct Hok as [Hok|(Hseen & Hlo & Hup & Hcp)]; [done|].
  destruct ((lower_boundary d <=? b) && (b <=? upper_boundary d)) eqn:Er; cbn [negb].
  - apply andb_true_iff in Er as [H1 H2]. apply Z.leb_le in H1, H2.
    assert (Hmod : b mod 64 = b - 128) by (apply (mod_offset b 64 2); lia).
    assert (Hne : bool_decide (b = 10) = false) by (apply bool_decide_eq_false; lia).
    rewrite Hne, continuation_value, Hmod.
    destruct (bytes_seen d + 1 =? bytes_needed d) eqn:Ec; cbn [fst snd].
    + apply Z.eqb_eq in Ec. split_and!; [by left| |].
      * apply Forall_cons. split; [lia|done].
      * rewrite countLF_single, bool_decide_eq_false_2; [done|lia].
    + apply Z.eqb_neq in Ec. split_and!; [|done..]. right. cbn. lia.
  - pose proof (leadByte_spec (resetDecoder d) b eq_refl Hb) as (H1 & H2 & H3).
    destruct (leadByte (resetDecoder d) b) as [d' out]. cbn [fst snd] in *.
    split_and!; [done| |].
    + apply Forall_cons. split; [lia|done].
    + by rewrite countLF_cons, H3.
Qed.

Lemma byte_range (x : Byte.byte) : 0 ≤ Z.of_N (Byte.to_N x) ≤ 255.
Proof. pose proof (Byte.to_N_bounded x). lia. Qed.

Lemma decode_countLF value : ∀ d,
  decoderOk d →
  countLF (decode d value).2 = countLF (byteValues value)
  ∧ decoderOk (decode d value).1.
Proof.
  induction value as [|x value IH]; intros d Hok; [done|].
  cbn [decode byteValues map].
  pose proof (decodeByte_spec d _ Hok (byte_range x)) as (H1 & H2 & H3).
  destruct (decodeByte d (Z.of_N (Byte.to_N x))) as [d1 cps]. cbn [fst snd] in *.
  pose proof (skipBOMs_spec cps d1) as (H4 & H5 & H6).
  destruct (skipBOMs d1 cps) as [d2 out]. cbn [fst snd] in *.
  destruct (IH d2 (H6 H1)) as [H7 H8].
  destruct (decode d2 value) as [d3 rest]. cbn [fst snd] in *.
  split; [|done].
  rewrite countLF_app, flat_map_utf16_countLF, H4, H3, H7 by auto.
  rewrite countLF_cons. unfold LF, byteValues. reflexivity.
Qed.


Lemma decode_ascii value : ∀ d,
  bytes_needed d = 0 →
  Forall (λ b, b ≤ 127) (byteValues value) →
  (decode d value).2 = byteValues value.
Proof.
  induction value as [|x value IH]; intros d Hd Hall; [done|].
  cbn [byteValues map] in Hall. apply Forall_cons in Hall as [Hx Hall].
  pose proof (byte_range x) as Hb.
  cbn [decode byteValues map]. unfold decodeByte. rewrite Hd.
  change (0 =? 0) with true. cbv iota. unfold leadByte.
  rewrite (proj2 (Z.leb_le _ _) Hx). cbn [skipBOMs]. unfold skipBOM.
  assert (Hnb : (Z.of_N (Byte.to_N x) =? 65279) = false) by (apply Z.eqb_neq; lia).
  assert (Hsmall : (Z.of_N (Byte.to_N x) <? 65536) = true) by (apply Z.ltb_lt; lia).
  destruct (bom_seen d) eqn:Eb.
  - specialize (IH d Hd Hall). destruct (decode d value) as [d3 rest].
    cbn [snd] in *. cbn [app flat_map]. unfold utf16. rewrite Hsmall. cbn [app].
    by rewrite IH.
  - rewrite Hnb.
    set (d' := mkDecoder _ _ _ _ _ true).
    specialize (IH d' Hd Hall). destruct (decode d' value) as [d3 rest].
    cbn [snd] in *. cbn [app flat_map]. unfold utf16. rewrite Hsmall. cbn [app].
    by rewrite IH.
Qed.

(** X21: bytes below 128 decode to themselves, one code unit for
    each byte. *)
Theorem ascii_bytes_decode_to_themselves (value : list Byte.byte) :
  Forall (λ b, b ≤ 127) (byteValues value) →
  (decode newDecoder value).2 = byteValues value.
Proof. intros Hall. by apply decode_ascii. Qed.

Lemma ascii_bytes_decode_to_themselves_witness :
  (decode newDecoder (bytesOf (errorLine "rate limited"))).2
  = codeUnits (errorLine "rate limited").
Proof.
  apply ascii_bytes_decode_to_themselves.
  apply (bool_decide_unpack _). vm_compute. exact I.
Defined.

(** * After an error event, and over a stage's life *)

Lemma readLoop_return_app JSON_parse cs1 cs2 : ∀ d buffer s s',
  readLoop JSON_parse d buffer cs1 s = Return s' →
  readLoop JSON_parse d buffer (cs1 ++ cs2) s = Return s'.
Proof.
  induction cs1 as [|value cs1 IH]; intros d buffer s s' Hret; [done|].
  rewrite <- app_comm_cons, readLoop_cons. rewrite readLoop_cons in Hret.
  destruct (decode d value) as [d1 t1].
  destruct (pop (split_lf (buffer ++ t1))) as [lines buffer'].
  destruct (processLines JSON_parse lines s) as [s1|s1]; [|done].
  by apply IH.
Qed.

(** X22: once the loop has returned on an error event, neither the
    chunks that follow nor the way the stream ends changes the final
    state. *)
Theorem nothing_counts_after_an_error_event
    (JSON_parse : jsstring → option Event) (data : FormData)
    (cs1 cs2 : list (list Byte.byte)) (e : StreamEnd) (s s' : State) :
  readLoop JSON_parse newDecoder [] cs1 (startRun data s) = Return s' →
  handleProcessVideo JSON_parse data (Body (cs1 ++ cs2) e) s = finallyBlock s'
  ∧ handleProcessVideo JSON_parse data (Body (cs1 ++ cs2) e) s
    = handleProcessVideo JSON_parse data (Body cs1 Done) s.
Proof.
  intros Hret. unfold handleProcessVideo.
  by rewrite (readLoop_return_app _ _ cs2 _ _ _ _ Hret), Hret.
Qed.

Lemma nothing_counts_after_an_error_event_witness :
  handleProcessVideo sampleParse twitterRun
    (Body (errorStream ++ chunksA) (ReadThrows "TypeError: network error"))
    initialState
  = errorRun.
Proof.
  assert (Hret : readLoop sampleParse newDecoder [] errorStream
                   (startRun twitterRun initialState)
                 = Return (setIsLoading false
                             (setError (Some "rate limited")
                                (stateOf (handleEvent EvTranscript twitterStart)))))
    by (vm_compute; reflexivity).
  destruct (nothing_counts_after_an_error_event sampleParse twitterRun errorStream
              chunksA (ReadThrows "TypeError: network error") initialState _ Hret)
    as [_ H].
  exact H.
Defined.

(** X23: with both progress channels of a stage at most 100 and the
    ramp value not negative, the stage shows 0 while pending, a value
    between 0 and 100 while active and 100 once completed. *)
Theorem display_rises_over_a_stage_life
    (real simulated : gmap string Q) (step : PipelineStep) :
  (get_or 0 real (id step) <= 100)%Q →
  (get_or 0 simulated (id step) <= 100)%Q →
  (0 <= get_or 0 simulated (id step))%Q →
  ∃ p,
    progress (withDisplay real simulated (with_status pending step)) = Some 0
    ∧ progress (withDisplay real simulated (with_status active step)) = Some p
    ∧ progress (withDisplay real simulated (with_status completed step)) = Some 100
    ∧ 0 ≤ p ≤ 100.
Proof.
  intros Hreal Hsim Hpos. eexists. split_and!; try reflexivity.
  - change 0 with (Math_round 0). apply Math_round_le.
    cbn [id with_status]. apply Qle_trans with (1 := Hpos), Q.le_max_r.
  - change 100 with (Math_round 100). apply Math_round_le.
    cbn [id with_status]. unfold Math_max. by apply Q.max_lub.
Qed.

Lemma display_rises_over_a_stage_life_witness :
  ∃ p,
    progress (withDisplay {[ "analysis" := 40%Q ]} {[ "analysis" := 55%Q ]}
                (mkStep "analysis" "Intelligence" "Brain + Research" active None))
    = Some p
    ∧ 0 ≤ p ≤ 100.
Proof.
  destruct (display_rises_over_a_stage_life {[ "analysis" := 40%Q ]}
              {[ "analysis" := 55%Q ]}
              (mkStep "analysis" "Intelligence" "Brain + Research" pending None))
    as (p & _ & Hp & _ & Hr).
  - vm_compute. discriminate.
  - vm_compute. discriminate.
  - vm_compute. discriminate.
  - exists p. split; [exact Hp|exact Hr].
Defined.
